(** * The file store and the file tree of the workbench

    A shallow embedding of [FilesStore] (app/lib/stores/files.ts) and of
    the node-list functions of [FileTree] (app/components/workbench/FileTree.tsx).

    Conventions of the embedding:
    - a JS string is a [string]; only the code unit ['/'] is ever inspected;
    - a JS number that holds a count or a depth is a [Z] (all values met
      here are integers far below 2^53, where [Z] and doubles agree);
    - the nanostores [map] store and the JS [Map]/[Set] objects are finite
      maps and sets ([gmap], [gset]); [setKey k undefined] removes [k];
    - what the platform or a package provides (the encoding detector, the
      UTF-8 decoder, [path.relative], the sandbox file system, the
      collation behind [localeCompare]) is a method of a class, so that
      every statement holds for whatever the host provides;
    - a thrown error is the [Throw] case of a completion, and a throw
      leaves the state as it is at that point;
    - a [RegExp] is an object with state: its [lastIndex] lives in a heap
      that [test] reads and writes, and that the functions which test
      patterns take and return. *)

From Stdlib Require Import ZArith List Ascii String Lia Permutation Sorted.
From Stdlib Require OrderedTypeEx.
From stdpp Require Import gmap strings list fin_maps sorting.

Local Open Scope string_scope.
Local Open Scope list_scope.
Local Open Scope Z_scope.

(** ** Strings *)

Module Str.

(** [s.startsWith(p)] *)
Fixpoint startsWith (s p : string) {struct p} : bool :=
  match p with
  | EmptyString => true
  | String c p' =>
      match s with
      | EmptyString => false
      | String d s' => if Ascii.eqb d c then startsWith s' p' else false
      end
  end.

(** [s.includes(p)] *)
Fixpoint includes (s p : string) : bool :=
  startsWith s p ||
  match s with
  | EmptyString => false
  | String _ s' => includes s' p
  end.

Definition isEmpty (s : string) : bool :=
  match s with EmptyString => true | String _ _ => false end.

Definition isSlash (c : ascii) : bool := Ascii.eqb c "/"%char.

(** [s.replace(/\/+$/g, '')]: the one match of the pattern is the
    maximal run of slashes that ends the string. *)
Fixpoint stripTrailingSlashes (s : string) : string :=
  match s with
  | EmptyString => EmptyString
  | String c s' =>
      let r := stripTrailingSlashes s' in
      if isSlash c && isEmpty r then EmptyString else String c r
  end.

(** [s.split('/')], with the segment being read kept in [cur]. *)
Fixpoint splitFrom (cur : string) (s : string) : list string :=
  match s with
  | EmptyString => [cur]
  | String c s' =>
      if isSlash c then cur :: splitFrom EmptyString s'
      else splitFrom (cur +:+ String c EmptyString) s'
  end.

Definition split (s : string) : list string := splitFrom EmptyString s.

(** [s.slice(n)] *)
Fixpoint drop (n : nat) (s : string) : string :=
  match n, s with
  | O, _ => s
  | S _, EmptyString => EmptyString
  | S n', String _ s' => drop n' s'
  end.

(** The index just past the first occurrence of [p] in [s], where [s]
    starts at index [i] of the string it is a suffix of. *)
Fixpoint endOfFirst (i : Z) (s p : string) : option Z :=
  if startsWith s p then Some (i + Z.of_nat (String.length p))
  else match s with
       | EmptyString => None
       | String _ s' => endOfFirst (i + 1) s' p
       end.

End Str.

(** ** Data model (files.ts) *)

(** A member of [FileMap]: [{ type: 'file' | 'folder'; content?: string;
    isBinary?: boolean }].  The optional fields are [option]s. *)
Inductive DirentType := TFile | TFolder.

Record Dirent := mkDirent {
  type : DirentType;
  content : option string;
  isBinary : option bool
}.

Definition folderDirent : Dirent := mkDirent TFolder None None.
Definition fileDirent (c : string) (b : bool) : Dirent :=
  mkDirent TFile (Some c) (Some b).

#[global] Instance DirentType_eq_dec : EqDecision DirentType.
Proof. solve_decision. Defined.
#[global] Instance Dirent_eq_dec : EqDecision Dirent.
Proof. solve_decision. Defined.

(** [PathWatcherEvent] of the sandbox API. *)
Inductive EventType :=
  | change | add_file | remove_file | add_dir | remove_dir | update_directory.

#[global] Instance EventType_eq_dec : EqDecision EventType.
Proof. solve_decision. Defined.

Record PathWatcherEvent := mkEvent {
  ev_type : EventType;
  ev_path : string;
  ev_buffer : option (list Byte.byte)
}.

(** The store object: [#files], [#lockedFiles], [#size], [#modifiedFiles]. *)
Record FilesStore := mkStore {
  files : gmap string Dirent;
  lockedFiles : gmap string bool;
  size : Z;
  modifiedFiles : gmap string string
}.

Definition emptyStore : FilesStore := mkStore ∅ ∅ 0 ∅.

(** nanostores [setKey]: an [undefined] value deletes the key. *)
Definition setKey (k : string) (v : option Dirent) (m : gmap string Dirent)
  : gmap string Dirent :=
  match v with
  | Some d => <[k := d]> m
  | None => delete k m
  end.

Definition set_files (m : gmap string Dirent) (st : FilesStore) : FilesStore :=
  mkStore m (lockedFiles st) (size st) (modifiedFiles st).
Definition set_size (n : Z) (st : FilesStore) : FilesStore :=
  mkStore (files st) (lockedFiles st) n (modifiedFiles st).
Definition set_modifiedFiles (m : gmap string string) (st : FilesStore) : FilesStore :=
  mkStore (files st) (lockedFiles st) (size st) m.
Definition set_lockedFiles (m : gmap string bool) (st : FilesStore) : FilesStore :=
  mkStore (files st) m (size st) (modifiedFiles st).

(** [Map.prototype.has] *)
Definition mapHas (m : gmap string string) (k : string) : bool :=
  match m !! k with
  | Some _ => true
  | None => false
  end.

(** Completion of a JS computation: a value, or a thrown error. *)
Inductive JsError := mkError (message : string).

Inductive completion (A : Type) :=
  | Normal (a : A)
  | Throw (e : JsError).
Arguments Normal {A} a.
Arguments Throw {A} e.

(** ['utf8' | 'binary' | null], the answers of the encoding detector. *)
Inductive Encoding := enc_utf8 | enc_binary | enc_null.

Definition filesCount (st : FilesStore) : Z := size st.

(** The number of file entries that the map holds. *)
Definition fileEntryCount (m : gmap string Dirent) : Z :=
  Z.of_nat (length (filter (λ kv, type kv.2 = TFile) (map_to_list m))).

(** [getFile]: the content of a file entry, [undefined] for a folder or
    an absent path. *)
Definition getFile (st : FilesStore) (filePath : string) : option string :=
  match files st !! filePath with
  | Some dirent =>
      match type dirent with
      | TFile => content dirent
      | TFolder => None
      end
  | None => None
  end.

Definition getFileModifications (st : FilesStore) : gmap string bool :=
  (λ _, true) <$> modifiedFiles st.

Definition resetFileModifications (st : FilesStore) : FilesStore :=
  set_modifiedFiles ∅ st.

Definition isFileLocked (st : FilesStore) (filePath : string) : bool :=
  default false (lockedFiles st !! filePath).

Definition toggleFileLock (filePath : string) (st : FilesStore) : FilesStore :=
  set_lockedFiles
    (<[filePath := negb (default false (lockedFiles st !! filePath))]> (lockedFiles st))
    st.

(** What the platform gives the watcher: [getEncoding(buffer, {
    chunkLength: 100 })] of istextorbinary, and [utf8TextDecoder.decode],
    a fatal decoder that throws on a byte sequence that is not UTF-8. *)
Class Platform := {
  getEncoding : list Byte.byte → Encoding;
  utf8_decode : list Byte.byte → completion string
}.

Section Watcher.

Context {platform : Platform}.

Definition isBinaryFile (buffer : option (list Byte.byte)) : bool :=
  match buffer with
  | None => false
  | Some b =>
      match getEncoding b with
      | enc_binary => true
      | enc_utf8 | enc_null => false
      end
  end.

(** [#decodeFileContent]: the [try]/[catch] around the decoder. *)
Definition decodeFileContent (buffer : option (list Byte.byte)) : completion string :=
  match buffer with
  | None => Normal ""
  | Some [] => Normal ""
  | Some b =>
      match utf8_decode b with
      | Normal s => Normal s
      | Throw _ => Normal ""
      end
  end.

(** The loop of [remove_dir] over [Object.entries(this.files.get())]. *)
Definition removePrefixed (sanitizedPath : string) (m : gmap string Dirent)
  : gmap string Dirent :=
  foldl (λ acc '(direntPath, _),
           if Str.startsWith direntPath sanitizedPath
           then setKey direntPath None acc else acc)
        m (map_to_list m).

(** One iteration of the loop of [#processEventBuffer]. *)
Definition processEvent (st : FilesStore) (e : PathWatcherEvent)
  : completion FilesStore :=
  let sanitizedPath := Str.stripTrailingSlashes (ev_path e) in
  match ev_type e with
  | add_dir =>
      Normal (set_files (setKey sanitizedPath (Some folderDirent) (files st)) st)
  | remove_dir =>
      let m := setKey sanitizedPath None (files st) in
      Normal (set_files (removePrefixed sanitizedPath m) st)
  | add_file | change =>
      let st1 :=
        match ev_type e with
        | add_file => set_size (size st + 1) st
        | _ => st
        end in
      let isBinary := isBinaryFile (ev_buffer e) in
      match (if isBinary then Normal "" else decodeFileContent (ev_buffer e)) with
      | Normal content =>
          Normal (set_files
                    (setKey sanitizedPath (Some (fileDirent content isBinary)) (files st1))
                    st1)
      | Throw err => Throw err
      end
  | remove_file =>
      let st1 := set_size (size st - 1) st in
      Normal (set_files (setKey sanitizedPath None (files st1)) st1)
  | update_directory => Normal st
  end.

(** The [for] loop of [#processEventBuffer] over [watchEvents]. *)
Fixpoint processWatchEvents (st : FilesStore) (watchEvents : list PathWatcherEvent)
  : completion FilesStore :=
  match watchEvents with
  | [] => Normal st
  | e :: rest =>
      match processEvent st e with
      | Normal st' => processWatchEvents st' rest
      | Throw err => Throw err
      end
  end.

(** [#processEventBuffer]: the batch is an array of one-element tuples,
    each holding an array of events; [events.flat(2)] flattens it. *)
Definition processEventBuffer (st : FilesStore) (events : list (list PathWatcherEvent))
  : completion FilesStore :=
  processWatchEvents st (concat events).

(** *** Reading a batch event by event

    The definitions below are not code of the store: they say, for the
    statements about it, what an event does to one path. *)

(** The entry that a file addition or a change stores. *)
Definition storedFile (e : PathWatcherEvent) : Dirent :=
  let isBinary := isBinaryFile (ev_buffer e) in
  fileDirent
    (if isBinary then ""
     else match decodeFileContent (ev_buffer e) with
          | Normal s => s
          | Throw _ => ""
          end)
    isBinary.

(** What one event does to the entry of path [k]: [Some v] when it
    sets the entry to [v] ([None] for removed), [None] when it leaves
    the entry alone.  It depends on the event and the path only. *)
Definition effectOn (e : PathWatcherEvent) (k : string) : option (option Dirent) :=
  let sanitizedPath := Str.stripTrailingSlashes (ev_path e) in
  match ev_type e with
  | add_dir => if decide (k = sanitizedPath) then Some (Some folderDirent) else None
  | add_file | change =>
      if decide (k = sanitizedPath) then Some (Some (storedFile e)) else None
  | remove_file => if decide (k = sanitizedPath) then Some None else None
  | remove_dir => if Str.startsWith k sanitizedPath then Some None else None
  | update_directory => None
  end.

(** What one event adds to [#size]. *)
Definition sizeDelta (e : PathWatcherEvent) : Z :=
  match ev_type e with
  | add_file => 1
  | remove_file => -1
  | _ => 0
  end.

(** The effect on path [k] of the latest event of [evs] that has one. *)
Fixpoint lastEffect (evs : list PathWatcherEvent) (k : string) : option (option Dirent) :=
  match evs with
  | [] => None
  | e :: rest =>
      match lastEffect rest k with
      | Some v => Some v
      | None => effectOn e k
      end
  end.

(** [e] is a non-removal event for path [p]: it adds or changes [p]. *)
Definition addsPath (e : PathWatcherEvent) (p : string) : bool :=
  match ev_type e with
  | add_dir | add_file | change =>
      bool_decide (Str.stripTrailingSlashes (ev_path e) = p)
  | _ => false
  end.

(** [e] removes path [p]: a file removal of [p], or a directory removal
    of a path that is a prefix of [p]. *)
Definition removesPath (e : PathWatcherEvent) (p : string) : bool :=
  match ev_type e with
  | remove_file => bool_decide (Str.stripTrailingSlashes (ev_path e) = p)
  | remove_dir => Str.startsWith p (Str.stripTrailingSlashes (ev_path e))
  | _ => false
  end.

Definition touchesPath (e : PathWatcherEvent) (p : string) : bool :=
  addsPath e p || removesPath e p.

(** The entry of [p] once [e] alone has been processed by a fresh store. *)
Definition entryAfter (e : PathWatcherEvent) (p : string) : option Dirent :=
  match processEvent emptyStore e with
  | Normal st => files st !! p
  | Throw _ => None
  end.

(** The number of events of one type in a batch. *)
Definition countType (ty : EventType) (evs : list PathWatcherEvent) : Z :=
  Z.of_nat (length (filter (λ e, ev_type e = ty) evs)).

End Watcher.

(** ** saveFile *)

(** What [saveFile] does to the world outside its own locals, in order. *)
Inductive Effect :=
  | FsWriteFile (relativePath content : string)
  | ModifiedFilesSet (filePath oldContent : string)
  | FilesSetKey (filePath : string) (d : option Dirent).

Definition isLocalMutation (e : Effect) : bool :=
  match e with
  | FsWriteFile _ _ => false
  | ModifiedFilesSet _ _ | FilesSetKey _ _ => true
  end.

Record WebContainer := mkWebContainer { workdir : string }.

(** What [saveFile] calls outside the store: the state [FS] of the
    sandbox file system, [webcontainer.fs.writeFile(relativePath,
    content)], which resolves or rejects and leaves the sandbox in some
    state either way, and [nodePath.relative(from, to)]. *)
Class SandboxApi := {
  FS : Type;
  fs_writeFile : string → string → FS → completion unit * FS;
  nodePath_relative : string → string → string
}.

Section Sandbox.

Context {api : SandboxApi}.

(** The store together with what it talks to: the settled
    [#webcontainer] promise, the sandbox and the record of effects. *)
Record World := mkWorld {
  store : FilesStore;
  webcontainer : completion WebContainer;
  sandbox : FS;
  trace : list Effect
}.

(** Computations that read and write the world and may throw.  A throw
    keeps the world as it is at that point: nothing is rolled back. *)
Definition M (A : Type) : Type := World → completion A * World.

Definition ret {A} (a : A) : M A := λ w, (Normal a, w).
Definition throw {A} (e : JsError) : M A := λ w, (Throw e, w).
Definition bind {A B} (m : M A) (k : A → M B) : M B :=
  λ w, match m w with
       | (Normal a, w') => k a w'
       | (Throw e, w') => (Throw e, w')
       end.
Definition tryCatch {A} (body : M A) (handler : JsError → M A) : M A :=
  λ w, match body w with
       | (Normal a, w') => (Normal a, w')
       | (Throw e, w') => handler e w'
       end.

Notation "'let*' x ':=' m 'in' k" := (bind m (λ x, k))
  (at level 10, x name, m at level 100, k at level 200).

Definition record (e : Effect) (w : World) : World :=
  mkWorld (store w) (webcontainer w) (sandbox w) (trace w ++ [e]).

Definition awaitWebcontainer : M WebContainer :=
  λ w, (webcontainer w, w).

Definition getFileM (filePath : string) : M (option string) :=
  λ w, (Normal (getFile (store w) filePath), w).

Definition writeFileM (relativePath content : string) : M unit :=
  λ w, let '(r, fs') := fs_writeFile relativePath content (sandbox w) in
       (r, mkWorld (store w) (webcontainer w) fs'
                   (trace w ++ [FsWriteFile relativePath content])).

Definition modifiedFilesHas (filePath : string) : M bool :=
  λ w, (Normal (mapHas (modifiedFiles (store w)) filePath), w).

Definition modifiedFilesSet (filePath oldContent : string) : M unit :=
  λ w, (Normal tt,
        record (ModifiedFilesSet filePath oldContent)
          (mkWorld (set_modifiedFiles (<[filePath := oldContent]> (modifiedFiles (store w)))
                                      (store w))
                   (webcontainer w) (sandbox w) (trace w))).

Definition filesSetKey (filePath : string) (d : option Dirent) : M unit :=
  λ w, (Normal tt,
        record (FilesSetKey filePath d)
          (mkWorld (set_files (setKey filePath d (files (store w))) (store w))
                   (webcontainer w) (sandbox w) (trace w))).

(** JS truthiness of [string | undefined]. *)
Definition truthy (s : option string) : bool :=
  match s with
  | Some s => negb (Str.isEmpty s)
  | None => false
  end.

Definition saveFile (filePath content : string) : M unit :=
  tryCatch
    (let* webcontainer := awaitWebcontainer in
     let relativePath := nodePath_relative (workdir webcontainer) filePath in
     let* oldContent := getFileM filePath in
     let* _ := writeFileM relativePath content in
     let* has := modifiedFilesHas filePath in
     let* _ := (if truthy oldContent && negb has
                then modifiedFilesSet filePath (default "" oldContent)
                else ret tt) in
     filesSetKey filePath (Some (fileDirent content false)))
    (λ error, throw error).

(** Saving the same path with each content of a list, in order; it
    stops at the first save that throws. *)
Fixpoint saveFiles (filePath : string) (contents : list string) : M unit :=
  match contents with
  | [] => ret tt
  | c :: cs => let* _ := saveFile filePath c in saveFiles filePath cs
  end.

End Sandbox.

(** A store method that runs on the store of a world. *)
Definition updateStore {api : SandboxApi} (f : FilesStore → FilesStore) (w : World) : World :=
  mkWorld (f (store w)) (webcontainer w) (sandbox w) (trace w).

(** ** The node list (FileTree.tsx) *)

Inductive NodeKind := file | folder.

#[global] Instance NodeKind_eq_dec : EqDecision NodeKind.
Proof. solve_decision. Defined.

Record Node := mkNode {
  kind : NodeKind;
  id : Z;
  depth : Z;
  name : string;
  fullPath : string
}.

(** [Number.MAX_SAFE_INTEGER], 2^53 - 1 *)
Definition MAX_SAFE_INTEGER : Z := 9007199254740991.

(** A [RegExp] object as [test] uses it.  [object] tells one object
    from another: patterns that are the same object share one
    [lastIndex].  [global] and [sticky] are the [g] and [y] flags.  The
    matching itself is the engine's and is left open: [search s i] is
    the index at which the match ends that the search of [s] from
    index [i] on finds (with [y], the match at [i] itself), if it finds
    one. *)
Record RegExp := mkRegExp {
  object : N;
  global : bool;
  sticky : bool;
  search : string → Z → option Z
}.

(** The [lastIndex] property of the RegExp objects, a number that is
    read through [ToLength].  An object without an entry has the
    [lastIndex] of a new RegExp, 0. *)
Definition RegExpHeap : Type := gmap N Z.

Definition lastIndex (r : RegExp) (h : RegExpHeap) : Z := default 0 (h !! object r).

(** [ToLength], on an integer. *)
Definition ToLength (z : Z) : Z := Z.max 0 (Z.min z MAX_SAFE_INTEGER).

(** [r.test(s)]: what RegExpBuiltinExec does to [lastIndex], and whether
    it finds a match.  Without [g] and [y] the search is from 0 and
    [lastIndex] is neither read nor written; with one of them the search
    is from [lastIndex], which is then set to the end of the match, or
    to 0 when there is none. *)
Definition RegExp_test (r : RegExp) (s : string) (h : RegExpHeap) : bool * RegExpHeap :=
  if global r || sticky r then
    let i := ToLength (lastIndex r h) in
    if Z.of_nat (String.length s) <? i then (false, <[object r := 0]> h)
    else
      match search r s i with
      | Some e => (true, <[object r := e]> h)
      | None => (false, <[object r := 0]> h)
      end
  else
    (match search r s 0 with Some _ => true | None => false end, h).

(** An element of [hiddenFiles]: a string or a [RegExp]. *)
Inductive HiddenPattern :=
  | HString (s : string)
  | HRegExp (r : RegExp).

(** A RegExp without flags whose pattern is a literal text, such as
    [/\/\.next/]: the search finds the first occurrence of the text. *)
Definition literalRegExp (o : N) (text : string) : RegExp :=
  mkRegExp o false false
           (λ s i, Str.endOfFirst i (Str.drop (Z.to_nat i) s) text).

Definition DEFAULT_HIDDEN_FILES : list HiddenPattern :=
  [ HRegExp (literalRegExp 0 "/node_modules/");
    HRegExp (literalRegExp 1 "/.next");
    HRegExp (literalRegExp 2 "/.astro") ].

(** The callback of [hiddenFiles.some] in [isHiddenFile]. *)
Definition patternMatches (filePath fileName : string) (pathOrRegex : HiddenPattern)
    (h : RegExpHeap) : bool * RegExpHeap :=
  match pathOrRegex with
  | HString s => (Str.includes filePath s || Str.includes fileName s, h)
  | HRegExp r =>
      let '(found, h1) := RegExp_test r filePath h in
      if found then (true, h1) else RegExp_test r fileName h1
  end.

(** [isHiddenFile(filePath, fileName, hiddenFiles)]: [some] stops at the
    first pattern that matches, so the patterns after it are not tested. *)
Fixpoint isHiddenFile (filePath fileName : string) (hiddenFiles : list HiddenPattern)
    (h : RegExpHeap) : bool * RegExpHeap :=
  match hiddenFiles with
  | [] => (false, h)
  | pathOrRegex :: rest =>
      let '(found, h1) := patternMatches filePath fileName pathOrRegex h in
      if found then (true, h1) else isHiddenFile filePath fileName rest h1
  end.

(** One pass of the body of [filteredFileList]'s loop: the threshold
    [lastDepth] and the list built so far. *)
Definition filterStep (collapsedFolders : gset string) (st : Z * list Node) (fileOrFolder : Node)
  : Z * list Node :=
  let '(lastDepth, list) := st in
  let depth := depth fileOrFolder in
  let lastDepth := if lastDepth =? depth then MAX_SAFE_INTEGER else lastDepth in
  let lastDepth :=
    if bool_decide (fullPath fileOrFolder ∈ collapsedFolders)
    then Z.min lastDepth depth else lastDepth in
  if lastDepth <? depth then (lastDepth, list)
  else (lastDepth, list ++ [fileOrFolder]).

Definition filteredFileList (fileList : list Node) (collapsedFolders : gset string)
  : list Node :=
  snd (foldl (filterStep collapsedFolders) (MAX_SAFE_INTEGER, []) fileList).

Definition direntIsFile (dirent : option Dirent) : bool :=
  match dirent with
  | Some d => bool_decide (type d = TFile)
  | None => false
  end.

(** [a.localeCompare(b)], the collation of the host. *)
Class Collation := {
  localeCompare : string → string → Z
}.

Section BuildFileList.

Context {collation : Collation}.

Variable rootFolder : string.
Variable hideRoot : bool.

(** The [while] loop over [segments], from index [i] on; [rest] is
    [segments.slice(i)]. *)
Fixpoint walkSegments (defaultDepth : Z) (dirent : option Dirent) (segmentsLength : Z)
    (rest : list string) (currentPath : string) (i depth : Z)
    (acc : gset string * list Node) : gset string * list Node :=
  match rest with
  | [] => acc
  | name :: rest' =>
      let fullPath := currentPath +:+ "/" +:+ name in
      if negb (Str.startsWith fullPath rootFolder)
         || (hideRoot && String.eqb fullPath rootFolder)
      then walkSegments defaultDepth dirent segmentsLength rest' fullPath (i + 1) depth acc
      else
        let '(folderPaths, fileList) := acc in
        let nodeDepth := depth + (if hideRoot then 0 else defaultDepth) in
        let acc' :=
          if (i =? segmentsLength - 1) && direntIsFile dirent then
            (folderPaths,
             fileList ++ [mkNode file (Z.of_nat (length fileList)) nodeDepth name fullPath])
          else if negb (bool_decide (fullPath ∈ folderPaths)) then
            ({[fullPath]} ∪ folderPaths,
             fileList ++ [mkNode folder (Z.of_nat (length fileList)) nodeDepth name fullPath])
          else acc in
        walkSegments defaultDepth dirent segmentsLength rest' fullPath (i + 1) (depth + 1) acc'
  end.

(** The body of the [for] loop over [Object.entries(files)]; the
    accumulator holds the heap of the RegExp objects besides
    [folderPaths] and [fileList]. *)
Definition addEntry (hiddenFiles : list HiddenPattern) (defaultDepth : Z)
    (acc : RegExpHeap * (gset string * list Node)) (entry : string * option Dirent)
  : RegExpHeap * (gset string * list Node) :=
  let '(h, built) := acc in
  let '(filePath, dirent) := entry in
  let normalizedPath :=
    if Str.startsWith filePath "/" then filePath else "/" +:+ filePath in
  let segments := filter (λ segment, negb (Str.isEmpty segment)) (Str.split normalizedPath) in
  match last segments with
  | None => acc
  | Some fileName =>
      let '(hidden, h') := isHiddenFile normalizedPath fileName hiddenFiles h in
      if hidden then (h', built)
      else (h', walkSegments defaultDepth dirent (Z.of_nat (length segments))
                             segments "" 0 0 built)
  end.

Definition compareNodes (a b : Node) : Z :=
  if bool_decide (kind a ≠ kind b) then
    match kind a with folder => -1 | file => 1 end
  else localeCompare (name a) (name b).

(** [Array.prototype.sort] with a comparator: a stable sort. *)
Fixpoint insertSorted (cmp : Node → Node → Z) (x : Node) (l : list Node) : list Node :=
  match l with
  | [] => [x]
  | y :: l' => if cmp x y <=? 0 then x :: y :: l' else y :: insertSorted cmp x l'
  end.

Definition sortNodes (cmp : Node → Node → Z) (l : list Node) : list Node :=
  foldr (insertSorted cmp) [] l.

(** The list before the final sort, and the heap that the tests of
    the patterns leave. *)
Definition unsortedFileList (entries : list (string * option Dirent))
    (hiddenFiles : list HiddenPattern) (h : RegExpHeap) : list Node * RegExpHeap :=
  let '(defaultDepth, fileList) :=
    if String.eqb rootFolder "/" && negb hideRoot
    then (1, [mkNode folder 0 0 "/" "/"])
    else (0, []) in
  let final := foldl (addEntry hiddenFiles defaultDepth) (h, (∅, fileList)) entries in
  (final.2.2, final.1).

(** [buildFileList(files, rootFolder, hideRoot, hiddenFiles)], on
    [Object.entries(files)] and the heap of the RegExp objects at the
    call: the list returned, and the heap after the call. *)
Definition buildFileList (entries : list (string * option Dirent))
    (hiddenFiles : list HiddenPattern) (h : RegExpHeap) : list Node * RegExpHeap :=
  let raw := unsortedFileList entries hiddenFiles h in
  (sortNodes compareNodes raw.1, raw.2).

End BuildFileList.

(** ** What the node list is made of

    The definitions below are not code of the component: they name, for
    the statements about [buildFileList], the paths that an entry asks
    nodes for. *)

(** The segments of a map key, as the loop of [buildFileList] reads them. *)
Definition segmentsOf (filePath : string) : list string :=
  let normalizedPath :=
    if Str.startsWith filePath "/" then filePath else "/" +:+ filePath in
  filter (λ segment, negb (Str.isEmpty segment)) (Str.split normalizedPath).

(** The paths of the non-empty prefixes of a list of segments, the
    shortest first: [/a], [/a/b], ... for [a; b; ...]. *)
Fixpoint prefixPaths (currentPath : string) (segments : list string) : list string :=
  match segments with
  | [] => []
  | name :: rest =>
      let fullPath := currentPath +:+ "/" +:+ name in
      fullPath :: prefixPaths fullPath rest
  end.

(** The path at which an entry is shown as a file: its whole path, when
    the entry is a file and has a segment. *)
Definition filePathsOf (entry : string * option Dirent) : list string :=
  if direntIsFile entry.2
  then option_list (last (prefixPaths "" (segmentsOf entry.1)))
  else [].

(** The paths at which an entry asks for a folder: its proper ancestors,
    and its whole path too when the entry is not a file. *)
Definition folderPathsOf (entry : string * option Dirent) : list string :=
  if direntIsFile entry.2
  then removelast (prefixPaths "" (segmentsOf entry.1))
  else prefixPaths "" (segmentsOf entry.1).

(** What a stretch of the loops of [buildFileList] emits: starting with
    the seen-set [seen] it pushes the nodes [new] and ends with the
    seen-set [seen'], where [filePaths] are the file paths met, in order,
    and [folderPaths] the folder paths met.  Every file path gets a file
    node; a folder path gets a folder node unless it was seen. *)
Definition emits (seen seen' : gset string) (new : list Node)
    (filePaths folderPaths : list string) (bound : Z) : Prop :=
  fullPath <$> filter (λ n, kind n = file) new = filePaths
  ∧ NoDup (fullPath <$> filter (λ n, kind n = folder) new)
  ∧ (∀ f, f ∈ (fullPath <$> filter (λ n, kind n = folder) new)
          ↔ (f ∉ seen) ∧ f ∈ folderPaths)
  ∧ (∀ f, f ∈ seen' ↔ f ∈ seen ∨ f ∈ folderPaths)
  ∧ Forall (λ n, depth n <= bound) new.

(** A value of [currentPath] in the loop over the segments. *)
Definition walked (currentPath : string) : Prop :=
  currentPath = "" ∨ Str.startsWith currentPath "/" = true.

(** A comparator that [Array.prototype.sort] can sort by: total and
    transitive. *)
Definition consistentComparator {A} (cmp : A → A → Z) : Prop :=
  (∀ a b, 0 < cmp a b → cmp b a <= 0)
  ∧ (∀ a b c, cmp a b <= 0 → cmp b c <= 0 → cmp a c <= 0).

(** ** The collapsed folders and the rows (FileTree.tsx) *)

(** [setsAreEqual(a, b)]: the sizes are compared, then every value of
    [a] is looked up in [b]. *)
Definition setsAreEqual (a b : gset string) : bool :=
  if negb (Nat.eqb (stdpp.base.size a) (stdpp.base.size b)) then false
  else forallb (λ val, bool_decide (val ∈ b)) (elements a).

(** [folders]: [fileList.filter((item) => item.kind === 'folder')] *)
Definition foldersOf (fileList : list Node) : list Node :=
  filter (λ item, kind item = folder) fileList.

(** [initialCollapsedFolders], the first state of [collapsedFolders]. *)
Definition initialCollapsedFolders (collapsed : list string) (fileList : list Node)
  : gset string :=
  if (0 <? length collapsed)%nat
  then list_to_set
         (filter (λ path, path ∈ collapsed)
                 (fullPath <$> filter (λ item, kind item = folder) fileList))
  else ∅.

(** The body of the effect that reconciles [collapsedFolders] with the
    [collapsed] prop and the folders at hand; the result is the state
    after the effect. *)
Definition reconcileCollapsed (collapsed : list string) (folders : list Node)
    (collapsedFolders : gset string) : gset string :=
  let folderPaths := fullPath <$> folders in
  if (0 <? length collapsed)%nat then
    let newCollapsed : gset string :=
      list_to_set (filter (λ path, path ∈ collapsed) folderPaths) in
    if negb (setsAreEqual newCollapsed collapsedFolders)
    then newCollapsed else collapsedFolders
  else
    let newCollapsed : gset string :=
      foldl (λ acc folder,
               if bool_decide (fullPath folder ∈ collapsedFolders)
               then {[fullPath folder]} ∪ acc else acc)
            ∅ folders in
    if setsAreEqual newCollapsed collapsedFolders then collapsedFolders else newCollapsed.

(** [toggleCollapseState(fullPath)], on the previous set. *)
Definition toggleCollapseState (fullPath : string) (prevSet : gset string) : gset string :=
  if bool_decide (fullPath ∈ prevSet) then prevSet ∖ {[fullPath]}
  else {[fullPath]} ∪ prevSet.

(** [computedHiddenFiles]: the default patterns, then those of the prop. *)
Definition computedHiddenFiles (hiddenFiles : option (list HiddenPattern))
  : list HiddenPattern :=
  DEFAULT_HIDDEN_FILES ++ default [] hiddenFiles.

(** The depth that [File] hands to its button: [path.split('/').length - 1]. *)
Definition fileDepth (path : string) : Z := Z.of_nat (length (Str.split path)) - 1.

Definition NODE_PADDING_LEFT : Z := 8.

(** The left padding of a row, in pixels. *)
Definition paddingLeft (depth : Z) : Z := 6 + depth * NODE_PADDING_LEFT.



(** ** More names for the statements *)

(** A pattern whose test keeps no state: a string, or a RegExp with
    neither the [g] nor the [y] flag. *)
Definition stateless (pathOrRegex : HiddenPattern) : bool :=
  match pathOrRegex with
  | HString _ => true
  | HRegExp r => negb (global r || sticky r)
  end.

(** Whether the loop of [buildFileList] passes over an entry, met with
    the heap [h], and the heap after: the entry has no segment, or a
    hidden pattern matches it. *)
Definition skipEntry (hiddenFiles : list HiddenPattern) (entry : string * option Dirent)
    (h : RegExpHeap) : bool * RegExpHeap :=
  let normalizedPath :=
    if Str.startsWith entry.1 "/" then entry.1 else "/" +:+ entry.1 in
  match last (segmentsOf entry.1) with
  | None => (true, h)
  | Some fileName => isHiddenFile normalizedPath fileName hiddenFiles h
  end.

Definition entrySkipped (hiddenFiles : list HiddenPattern) (h : RegExpHeap)
    (entry : string * option Dirent) : bool :=
  (skipEntry hiddenFiles entry h).1.

(** The entries that the loop does not pass over, when it starts with
    the heap [h]. *)
Fixpoint shownEntries (hiddenFiles : list HiddenPattern) (h : RegExpHeap)
    (entries : list (string * option Dirent)) : list (string * option Dirent) :=
  match entries with
  | [] => []
  | entry :: rest =>
      let '(skipped, h') := skipEntry hiddenFiles entry h in
      if skipped then shownEntries hiddenFiles h' rest
      else entry :: shownEntries hiddenFiles h' rest
  end.

(** A string without the code unit ['/']. *)
Fixpoint slashFree (s : string) : bool :=
  match s with
  | EmptyString => true
  | String c s' => negb (Str.isSlash c) && slashFree s'
  end.

(** A node that stands for a path [parent/name]: its name is one
    segment, its path ends with it, and the depth that [File] computes
    from the path is the depth of the node, less [offset], plus one. *)
Definition laidOut (offset : Z) (n : Node) : Prop :=
  name n ≠ ""
  ∧ slashFree (name n) = true
  ∧ (∃ parent, fullPath n = parent +:+ "/" +:+ name n)
  ∧ fileDepth (fullPath n) = depth n - offset + 1.

(** A node within the scope of [rootFolder], the root itself left out
    when it is hidden. *)
Definition inScope (rootFolder : string) (hideRoot : bool) (n : Node) : Prop :=
  Str.startsWith (fullPath n) rootFolder = true
  ∧ (hideRoot = true → fullPath n ≠ rootFolder).

(** Whether the entry of a path is a file. *)
Definition isFileAt (m : gmap string Dirent) (k : string) : bool :=
  match m !! k with
  | Some d => bool_decide (type d = TFile)
  | None => false
  end.

(** An event with another path. *)
Definition withPath (e : PathWatcherEvent) (p : string) : PathWatcherEvent :=
  mkEvent (ev_type e) p (ev_buffer e).

(** ** An environment for the examples *)

Module Example.

(** A detector in the manner of istextorbinary: a NUL byte means binary. *)
Definition detectNul (b : list Byte.byte) : Encoding :=
  if existsb (Byte.eqb Byte.x00) b then enc_binary else enc_utf8.

(** A strict decoder restricted to the one-byte sequences of UTF-8: any
    byte above 127 is rejected. *)
Definition decodeAscii (b : list Byte.byte) : completion string :=
  if forallb (λ x, (Byte.to_N x <? 128)%N) b
  then Normal (string_of_list_byte b)
  else Throw (mkError "The encoded data was not valid.").

Definition platform : Platform :=
  {| getEncoding := detectNul; utf8_decode := decodeAscii |}.

Definition bytes (s : string) : option (list Byte.byte) := Some (list_byte_of_string s).

(** A sandbox that records what is written to it, and one whose writes
    are all rejected. *)
Definition Disk : Type := list (string * string).

Definition writeFile (relativePath content : string) (fs : Disk) : completion unit * Disk :=
  (Normal tt, (relativePath, content) :: fs).

Definition writeFileFailing (relativePath content : string) (fs : Disk)
  : completion unit * Disk :=
  (Throw (mkError "EIO: write failed"), fs).

(** Paths below the work directory lose it; others are kept as they are. *)
Fixpoint dropPrefix (from to : string) : option string :=
  match from with
  | EmptyString => Some to
  | String c from' =>
      match to with
      | EmptyString => None
      | String d to' => if Ascii.eqb c d then dropPrefix from' to' else None
      end
  end.

Definition relative (from to : string) : string :=
  match dropPrefix (from +:+ "/") to with
  | Some rest => rest
  | None => to
  end.

Definition sandbox : SandboxApi :=
  {| FS := Disk; fs_writeFile := writeFile; nodePath_relative := relative |}.

Definition failingSandbox : SandboxApi :=
  {| FS := Disk; fs_writeFile := writeFileFailing; nodePath_relative := relative |}.

(** Comparison by code units. *)
Definition compareCodeUnits (a b : string) : Z :=
  match String.compare a b with
  | Lt => -1
  | Eq => 0
  | Gt => 1
  end.

Definition collation : Collation := {| localeCompare := compareCodeUnits |}.

(** A booted container, an empty sandbox, nothing done yet. *)
Definition world (api : SandboxApi) (disk : @FS api) (st : FilesStore) : @World api :=
  mkWorld st (Normal (mkWebContainer "/home/project")) disk [].

(** The node list of the collapse example: folder [A], file [A/x],
    folder [A/B], file [A/B/y], folder [C]. *)
Definition nodeA : Node := mkNode folder 0 0 "A" "A".
Definition nodeAx : Node := mkNode file 1 1 "x" "A/x".
Definition nodeAB : Node := mkNode folder 2 1 "B" "A/B".
Definition nodeABy : Node := mkNode file 3 2 "y" "A/B/y".
Definition nodeC : Node := mkNode folder 4 0 "C" "C".

Definition nodes : list Node := [nodeA; nodeAx; nodeAB; nodeABy; nodeC].

(** [Object.entries] of a map with a folder and two files below it, and
    of a map that holds one file only. *)
Definition tree : list (string * option Dirent) :=
  [ ("/src", Some folderDirent);
    ("/src/b.ts", Some (fileDirent "b" false));
    ("/src/a.ts", Some (fileDirent "hi" false)) ].

Definition loneFile : list (string * option Dirent) :=
  [ ("/src/a.ts", Some (fileDirent "hi" false)) ].

Definition aPath : string := "/home/project/src/a.ts".

(** A store that holds [src/a.ts] with the content [hi]. *)
Definition loaded : FilesStore :=
  mkStore {[ "/home/project/src" := folderDirent; aPath := fileDirent "hi" false ]} ∅ 1 ∅.

Definition batch : list (list PathWatcherEvent) :=
  [ [ mkEvent add_dir "/src/" None;
      mkEvent add_file "/src/a.ts" (bytes "hi");
      mkEvent add_file "/tmp/x" (bytes "scratch") ];
    [ mkEvent remove_dir "/tmp" None;
      mkEvent change "/src/a.ts" (bytes "bye");
      mkEvent remove_file "/tmp/x" None ] ].

Definition readded : list (list PathWatcherEvent) :=
  [ [ mkEvent remove_dir "/src" None;
      mkEvent add_dir "/src" None;
      mkEvent add_file "/src/a.ts" (bytes "hi") ] ].

Definition binaryAdd : PathWatcherEvent :=
  mkEvent add_file "/logo.png" (Some [Byte.x89; Byte.x50; Byte.x00; Byte.x47]).

Definition invalidAdd : PathWatcherEvent :=
  mkEvent add_file "/notes.txt" (Some [Byte.x68; Byte.xff; Byte.x69]).

(** The pattern [/\/secret/g], and three files of which two match it. *)
Definition secret : RegExp :=
  mkRegExp 3 true false (λ s i, Str.endOfFirst i (Str.drop (Z.to_nat i) s) "/secret").

Definition secrets : list (string * option Dirent) :=
  [ ("/ok", Some (fileDirent "1" false));
    ("/secret-a", Some (fileDirent "2" false));
    ("/secret-b", Some (fileDirent "3" false)) ].

End Example.

(** * Facts *)

(** ** Strings *)

Lemma startsWith_refl s : Str.startsWith s s = true.
Proof. induction s as [|c s IH]; simpl; [done|]. by rewrite Ascii.eqb_refl. Qed.

Lemma startsWith_trans s p q :
  Str.startsWith s p = true → Str.startsWith p q = true → Str.startsWith s q = true.
Proof.
  revert s p. induction q as [|c q IH]; intros s p Hsp Hpq; simpl; [done|].
  destruct p as [|d p]; simpl in Hpq; [done|].
  destruct s as [|e s]; simpl in Hsp; [done|].
  destruct (Ascii.eqb d c) eqn:Hdc; [|done].
  destruct (Ascii.eqb e d) eqn:Hed; [|done].
  apply Ascii.eqb_eq in Hdc, Hed. subst.
  rewrite Ascii.eqb_refl. by eapply IH.
Qed.

Lemma startsWith_stripTrailingSlashes p :
  Str.startsWith p (Str.stripTrailingSlashes p) = true.
Proof.
  induction p as [|c p IH]; simpl; [done|].
  destruct (Str.isSlash c && Str.isEmpty (Str.stripTrailingSlashes p)); simpl; [done|].
  by rewrite Ascii.eqb_refl.
Qed.

(** ** The watcher *)

Section WatcherFacts.

Context {platform : Platform}.

Lemma decodeFileContent_normal buffer :
  ∃ s, decodeFileContent buffer = Normal s.
Proof.
  destruct buffer as [[|b bs]|]; simpl; eauto.
  destruct (utf8_decode (b :: bs)); eauto.
Qed.

Lemma decodeFileContent_invalid b err :
  utf8_decode b = Throw err → decodeFileContent (Some b) = Normal "".
Proof. intros H. destruct b; simpl; [done|]. simpl in H. by rewrite H. Qed.

Lemma foldl_removePrefixed_lookup sp (l : list (string * Dirent)) (acc : gmap string Dirent) k :
  foldl (λ acc '(direntPath, _),
           if Str.startsWith direntPath sp then setKey direntPath None acc else acc)
        acc l !! k
  = if Str.startsWith k sp && bool_decide (k ∈ l.*1) then None else acc !! k.
Proof.
  revert acc. induction l as [|[k0 v] l IH]; intros acc; cbn [foldl].
- rewrite bool_decide_eq_false_2 by set_solver. by rewrite andb_false_r.
- rewrite IH, fmap_cons. cbn [fst]. destruct (decide (k = k0)) as [->|Hne].
  + rewrite (bool_decide_eq_true_2 (k0 ∈ k0 :: l.*1)) by left.
    destruct (Str.startsWith k0 sp) eqn:Hk; simpl; [|done].
    rewrite lookup_delete_eq. by case_bool_decide.
  + assert (bool_decide (k ∈ k0 :: l.*1) = bool_decide (k ∈ l.*1)) as ->.
    { apply bool_decide_ext. rewrite elem_of_cons. split; [intros [Heq|Hin]|right]; done. }
    assert ((if Str.startsWith k0 sp then setKey k0 None acc else acc) !! k = acc !! k) as ->; [|done].
    destruct (Str.startsWith k0 sp); [|done]. simpl. by rewrite lookup_delete_ne.
Qed.

Lemma removePrefixed_lookup sp (m : gmap string Dirent) k :
  removePrefixed sp m !! k = if Str.startsWith k sp then None else m !! k.
Proof.
  unfold removePrefixed. rewrite foldl_removePrefixed_lookup.
  destruct (Str.startsWith k sp); simpl; [|done].
  case_bool_decide as Hin; [done|].
  destruct (m !! k) as [d|] eqn:Hd; [|done].
  exfalso. apply Hin. apply list_elem_of_fmap. exists (k, d). split; [done|].
  by apply elem_of_map_to_list.
Qed.

Lemma processEvent_spec st e :
  ∃ st', processEvent st e = Normal st'
    ∧ (∀ k, files st' !! k = default (files st !! k) (effectOn e k))
    ∧ size st' = size st + sizeDelta e
    ∧ lockedFiles st' = lockedFiles st
    ∧ modifiedFiles st' = modifiedFiles st.
Proof.
  unfold processEvent, effectOn, sizeDelta, storedFile.
  destruct e as [ty p buf]; simpl.
  set (sp := Str.stripTrailingSlashes p).
  destruct ty; simpl.
  - (* change *)
    destruct (isBinaryFile buf) eqn:Hb.
    + eexists; split; [done|]. simpl. split_and!; try done; [|lia].
      intros k. case_decide as Hk; simpl; [subst; by rewrite lookup_insert_eq|].
      by rewrite lookup_insert_ne.
    + destruct (decodeFileContent_normal buf) as [s Hs]. rewrite Hs.
      eexists; split; [done|]. simpl. split_and!; try done; [|lia].
      intros k. case_decide as Hk; simpl; [subst; by rewrite lookup_insert_eq|].
      by rewrite lookup_insert_ne.
  - (* add_file *)
    destruct (isBinaryFile buf) eqn:Hb.
    + eexists; split; [done|]. simpl. split_and!; try done.
      intros k. case_decide as Hk; simpl; [subst; by rewrite lookup_insert_eq|].
      by rewrite lookup_insert_ne.
    + destruct (decodeFileContent_normal buf) as [s Hs]. rewrite Hs.
      eexists; split; [done|]. simpl. split_and!; try done.
      intros k. case_decide as Hk; simpl; [subst; by rewrite lookup_insert_eq|].
      by rewrite lookup_insert_ne.
  - (* remove_file *)
    eexists; split; [done|]. simpl. split_and!; try done.
    intros k. case_decide as Hk; simpl; [subst; by rewrite lookup_delete_eq|].
    by rewrite lookup_delete_ne.
  - (* add_dir *)
    eexists; split; [done|]. simpl. split_and!; try done; [|lia].
    intros k. case_decide as Hk; simpl; [subst; by rewrite lookup_insert_eq|].
    by rewrite lookup_insert_ne.
  - (* remove_dir *)
    eexists; split; [done|]. simpl. split_and!; try done; [|lia].
    intros k. rewrite removePrefixed_lookup.
    destruct (Str.startsWith k sp) eqn:Hk; simpl; [done|].
    rewrite lookup_delete_ne; [done|]. intros <-. by rewrite startsWith_refl in Hk.
  - (* update_directory *)
    eexists; split; [done|]. split_and!; try done. lia.
Qed.


Lemma lastEffect_app evs1 evs2 k :
  lastEffect (evs1 ++ evs2) k =
  match lastEffect evs2 k with
  | Some v => Some v
  | None => lastEffect evs1 k
  end.
Proof.
  induction evs1 as [|e evs1 IH]; simpl.
  - by destruct (lastEffect evs2 k).
  - rewrite IH. by destruct (lastEffect evs2 k).
Qed.

Lemma lastEffect_None evs k :
  lastEffect evs k = None ↔ Forall (λ e, effectOn e k = None) evs.
Proof.
  induction evs as [|e evs IH]; simpl.
  - split; [constructor|done].
  - rewrite Forall_cons. destruct (lastEffect evs k) as [v|].
    + split; [done|]. intros [_ H]. by apply IH in H.
    + split; [intros H; split; [done|by apply IH]|by intros [H _]].
Qed.

Lemma lastEffect_Some evs k v :
  lastEffect evs k = Some v →
  ∃ pre e post, evs = pre ++ e :: post ∧ effectOn e k = Some v ∧ lastEffect post k = None.
Proof.
  induction evs as [|e evs IH]; simpl; [done|].
  destruct (lastEffect evs k) as [v'|] eqn:Hl.
  - intros [= ->]. destruct IH as (pre & e' & post & -> & He & Hp); [done|].
    by exists (e :: pre), e', post.
  - intros He. by exists [], e, evs.
Qed.

Lemma sizeDelta_sum evs :
  foldr (λ e acc, sizeDelta e + acc) 0 evs = countType add_file evs - countType remove_file evs.
Proof.
  unfold countType. induction evs as [|e evs IH]; simpl; [done|].
  rewrite IH. rewrite !filter_cons. unfold sizeDelta.
  destruct (ev_type e); repeat case_decide; try done; simpl length; lia.
Qed.

Lemma processWatchEvents_spec evs st :
  ∃ st', processWatchEvents st evs = Normal st'
    ∧ (∀ k, files st' !! k = default (files st !! k) (lastEffect evs k))
    ∧ size st' = size st + foldr (λ e acc, sizeDelta e + acc) 0 evs
    ∧ lockedFiles st' = lockedFiles st
    ∧ modifiedFiles st' = modifiedFiles st.
Proof.
  revert st. induction evs as [|e evs IH]; intros st; simpl.
  - exists st. split_and!; try done. lia.
  - destruct (processEvent_spec st e) as (st1 & -> & Hf1 & Hs1 & Hl1 & Hm1).
    destruct (IH st1) as (st' & -> & Hf & Hs & Hl & Hm).
    exists st'. split_and!; try congruence; [|lia].
    intros k. rewrite Hf, Hf1. by destruct (lastEffect evs k).
Qed.

Lemma addsPath_effectOn e p :
  addsPath e p = true → ∃ d, effectOn e p = Some (Some d) ∧ entryAfter e p = Some d.
Proof.
  unfold addsPath, entryAfter. intros H.
  destruct (processEvent_spec emptyStore e) as (st1 & -> & Hf1 & _).
  rewrite Hf1. unfold effectOn.
  destruct (ev_type e); try done; apply bool_decide_eq_true in H;
    rewrite decide_True by done; eauto.
Qed.

Lemma removesPath_effectOn e p :
  removesPath e p = true → effectOn e p = Some None.
Proof.
  unfold removesPath, effectOn. intros H.
  destruct (ev_type e); try done.
  - apply bool_decide_eq_true in H. by rewrite decide_True.
  - by rewrite H.
Qed.

Lemma effectOn_present e p d :
  effectOn e p = Some (Some d) → addsPath e p = true ∧ entryAfter e p = Some d.
Proof.
  intros H. assert (addsPath e p = true) as Ha.
  { unfold addsPath. unfold effectOn in H.
    destruct (ev_type e), (Str.startsWith p (Str.stripTrailingSlashes (ev_path e)));
      repeat case_decide; try done; by apply bool_decide_eq_true. }
  split; [done|]. destruct (addsPath_effectOn e p Ha) as (d' & Hd' & ->). congruence.
Qed.

Lemma effectOn_untouched e p :
  effectOn e p = None ↔ touchesPath e p = false.
Proof.
  unfold touchesPath, addsPath, removesPath, effectOn.
  destruct (ev_type e); simpl; try done;
    try (case_decide; [rewrite bool_decide_eq_true_2 by done|rewrite bool_decide_eq_false_2 by done];
         simpl; split; done).
  by destruct (Str.startsWith p (Str.stripTrailingSlashes (ev_path e))).
Qed.

Lemma effectOn_no_add e p :
  addsPath e p = false → effectOn e p = None ∨ effectOn e p = Some None.
Proof.
  intros H. destruct (effectOn e p) as [[d|]|] eqn:He; auto.
  apply effectOn_present in He as [He _]. congruence.
Qed.

Lemma lastEffect_no_add post p :
  forallb (λ e, negb (addsPath e p)) post = true →
  lastEffect post p = None ∨ lastEffect post p = Some None.
Proof.
  induction post as [|e post IH]; simpl; [auto|].
  intros [He Hp]%andb_true_iff. apply negb_true_iff in He.
  destruct (IH Hp) as [-> | ->]; [|auto]. by apply effectOn_no_add.
Qed.

Lemma lastEffect_untouched post p :
  forallb (λ e, negb (touchesPath e p)) post = true ↔ lastEffect post p = None.
Proof.
  rewrite lastEffect_None, forallb_forall, Forall_forall.
  split; intros H e He.
  - apply effectOn_untouched. apply negb_true_iff. apply H. by apply list_elem_of_In.
  - apply negb_true_iff. apply effectOn_untouched. apply H. by apply list_elem_of_In.
Qed.


(** C1, as amended.  After a batch has been processed, the entry of a
    path is decided by the latest event of the batch that touches the
    path: (1) if that event is a non-removal event for the path (a
    directory or file addition, or a change), the path is present with
    the entry of that event; (2) if a removal of the path (a file removal
    of it, or a directory removal of a string prefix of it) is followed by
    no non-removal event for the path, the path is absent; (3) a path
    that is present either was touched by no event of the batch and keeps
    its earlier entry, or carries the entry of the most recent non-removal
    event for it. *)
Theorem processEventBuffer_latest_event_decides st events p :
  ∃ st', processEventBuffer st events = Normal st'
    ∧ (∀ pre e post,
         concat events = pre ++ e :: post →
         addsPath e p = true →
         forallb (λ e', negb (touchesPath e' p)) post = true →
         is_Some (files st' !! p) ∧ files st' !! p = entryAfter e p)
    ∧ (∀ pre e post,
         concat events = pre ++ e :: post →
         removesPath e p = true →
         forallb (λ e', negb (addsPath e' p)) post = true →
         files st' !! p = None)
    ∧ (is_Some (files st' !! p) →
         (forallb (λ e, negb (touchesPath e p)) (concat events) = true
          ∧ files st' !! p = files st !! p)
         ∨ (∃ pre e post,
              concat events = pre ++ e :: post
              ∧ addsPath e p = true
              ∧ forallb (λ e', negb (touchesPath e' p)) post = true
              ∧ files st' !! p = entryAfter e p)).
Proof.
  unfold processEventBuffer.
  destruct (processWatchEvents_spec (concat events) st) as (st' & Hrun & Hf & _).
  exists st'. split; [done|]. split_and!.
  - intros pre e post Hsplit Hadd Hpost.
    rewrite Hf, Hsplit, (lastEffect_app pre (e :: post)). simpl.
    apply lastEffect_untouched in Hpost. rewrite Hpost.
    destruct (addsPath_effectOn e p Hadd) as (d & -> & ->). simpl. eauto.
  - intros pre e post Hsplit Hrem Hpost.
    rewrite Hf, Hsplit, (lastEffect_app pre (e :: post)). simpl.
    rewrite (removesPath_effectOn e p Hrem).
    by destruct (lastEffect_no_add post p Hpost) as [-> | ->].
  - intros [d Hd]. rewrite Hf in Hd. rewrite Hf.
    destruct (lastEffect (concat events) p) as [v|] eqn:Hl.
    + right. simpl in Hd. subst v.
      destruct (lastEffect_Some _ _ _ Hl) as (pre & e & post & Hsplit & He & Hpost).
      apply effectOn_present in He as [Hadd Hentry].
      exists pre, e, post. split_and!; try done.
      by apply lastEffect_untouched.
    + left. split; [by apply lastEffect_untouched|done].
Qed.

(** C7.  Processing a batch a second time, on the store that the first
    pass left, gives the same FileMap as processing it once; so does
    processing the batch followed by itself.  In particular a file
    addition processed twice with the same payload leaves the map as
    after the first. *)
Theorem processEventBuffer_idempotent st events :
  ∃ st1 st2,
    processEventBuffer st events = Normal st1
    ∧ processEventBuffer st1 events = Normal st2
    ∧ files st2 = files st1
    ∧ (∃ st12, processEventBuffer st (events ++ events) = Normal st12
               ∧ files st12 = files st1)
    ∧ (∀ path buffer, ∃ s1 s2,
         processEvent st (mkEvent add_file path buffer) = Normal s1
         ∧ processEvent s1 (mkEvent add_file path buffer) = Normal s2
         ∧ files s2 = files s1).
Proof.
  unfold processEventBuffer.
  destruct (processWatchEvents_spec (concat events) st) as (st1 & Hrun1 & Hf1 & _).
  destruct (processWatchEvents_spec (concat events) st1) as (st2 & Hrun2 & Hf2 & _).
  exists st1, st2. split_and!; try done.
  - apply map_eq. intros k. rewrite Hf2, Hf1.
    by destruct (lastEffect (concat events) k).
  - destruct (processWatchEvents_spec (concat (events ++ events)) st) as (st12 & Hrun & Hf & _).
    exists st12. split; [done|]. apply map_eq. intros k.
    rewrite Hf, Hf1, concat_app, lastEffect_app.
    by destruct (lastEffect (concat events) k).
  - intros path buffer.
    destruct (processEvent_spec st (mkEvent add_file path buffer)) as (s1 & Hs1 & Hg1 & _).
    destruct (processEvent_spec s1 (mkEvent add_file path buffer)) as (s2 & Hs2 & Hg2 & _).
    exists s1, s2. split_and!; try done. apply map_eq. intros k.
    rewrite Hg2, Hg1. by destruct (effectOn _ k).
Qed.

(** C8.  A directory removal for path [p] removes every entry whose key
    has the sanitized [p] as a string prefix and leaves every other entry
    alone; every key that has [p] itself as a prefix is among the removed.
    The prefix is one of characters, not of path segments: removing
    [/src] removes the entries [/src2] and [/src.bak] too. *)
Theorem remove_dir_removes_by_string_prefix st p buffer :
  ∃ st', processEvent st (mkEvent remove_dir p buffer) = Normal st'
    ∧ (∀ k, files st' !! k =
            if Str.startsWith k (Str.stripTrailingSlashes p) then None else files st !! k)
    ∧ (∀ k, Str.startsWith k p = true → files st' !! k = None)
    ∧ (p = "/src" → files st' !! "/src2" = None ∧ files st' !! "/src.bak" = None).
Proof.
  destruct (processEvent_spec st (mkEvent remove_dir p buffer)) as (st' & Hrun & Hf & _).
  exists st'. split; [done|].
  assert (∀ k, files st' !! k =
               if Str.startsWith k (Str.stripTrailingSlashes p) then None else files st !! k)
    as Hchar.
  { intros k. rewrite Hf. unfold effectOn. simpl.
    by destruct (Str.startsWith k (Str.stripTrailingSlashes p)). }
  split_and!; [done| |].
  - intros k Hk. rewrite Hchar.
    by rewrite (startsWith_trans k p _ Hk (startsWith_stripTrailingSlashes p)).
  - intros ->. by rewrite !Hchar.
Qed.

(** C9.  [filesCount] moves by +1 on a file addition, by -1 on a file
    removal and not at all on any other event, whatever the map holds;
    over a batch it moves by the number of file additions minus the number
    of file removals.  So a directory removal whose cascade deletes a
    file entry leaves the count above the number of file entries of the
    map, and a file removal of an absent path makes the count negative. *)
Theorem filesCount_follows_events_only st events :
  (∀ e, ∃ st', processEvent st e = Normal st'
        ∧ filesCount st' = filesCount st +
            match ev_type e with add_file => 1 | remove_file => -1 | _ => 0 end)
  ∧ (∃ st', processEventBuffer st events = Normal st'
       ∧ filesCount st' = filesCount st + countType add_file (concat events)
                          - countType remove_file (concat events))
  ∧ (∃ st1 st2,
       processEventBuffer emptyStore
         [[mkEvent add_dir "/src" None; mkEvent add_file "/src/a.ts" None]] = Normal st1
       ∧ filesCount st1 = 1 ∧ fileEntryCount (files st1) = 1
       ∧ processEventBuffer st1 [[mkEvent remove_dir "/src" None]] = Normal st2
       ∧ filesCount st2 = 1 ∧ fileEntryCount (files st2) = 0)
  ∧ (∃ st', processEventBuffer emptyStore [[mkEvent remove_file "/ghost" None]] = Normal st'
       ∧ files emptyStore !! "/ghost" = None
       ∧ filesCount st' = -1).
Proof.
  split_and!.
  - intros e. destruct (processEvent_spec st e) as (st' & Hrun & _ & Hs & _).
    exists st'. split; [done|]. unfold filesCount. by rewrite Hs.
  - unfold processEventBuffer.
    destruct (processWatchEvents_spec (concat events) st) as (st' & Hrun & _ & Hs & _).
    exists st'. split; [done|]. unfold filesCount. rewrite Hs, sizeDelta_sum. lia.
  - eexists _, _. split; [vm_compute; reflexivity|].
    split; [reflexivity|]. split; [vm_compute; reflexivity|].
    split; [vm_compute; reflexivity|]. split; [reflexivity|]. vm_compute; reflexivity.
  - eexists. split; [vm_compute; reflexivity|]. split; reflexivity.
Qed.

(** C6, as amended.  A file addition or change always yields a store,
    never a thrown error.  When the detector classifies the payload as
    binary the entry is a file whose content is the empty string and whose
    binary flag is set; when the payload is text that the strict decoder
    rejects, the entry is a file whose content is the empty string and
    whose binary flag is clear.  A whole batch never throws either. *)
Theorem file_event_never_throws st ty p buffer :
  ty = add_file ∨ ty = change →
  (∃ st', processEvent st (mkEvent ty p buffer) = Normal st'
     ∧ (isBinaryFile buffer = true →
        files st' !! Str.stripTrailingSlashes p = Some (mkDirent TFile (Some "") (Some true)))
     ∧ (∀ b err, buffer = Some b → isBinaryFile buffer = false →
                 utf8_decode b = Throw err →
        files st' !! Str.stripTrailingSlashes p = Some (mkDirent TFile (Some "") (Some false))))
  ∧ (∀ events, ∃ st', processEventBuffer st events = Normal st').
Proof.
  intros Hty. split.
  - destruct (processEvent_spec st (mkEvent ty p buffer)) as (st' & Hrun & Hf & _).
    exists st'. split; [done|].
    assert (files st' !! Str.stripTrailingSlashes p = Some (storedFile (mkEvent ty p buffer)))
      as Hentry.
    { rewrite Hf. unfold effectOn. simpl.
      destruct Hty as [-> | ->]; by rewrite decide_True. }
    split.
    + intros Hbin. rewrite Hentry. unfold storedFile. cbn [ev_buffer].
      by rewrite Hbin.
    + intros b err -> Hbin Hdec. rewrite Hentry. unfold storedFile. cbn [ev_buffer].
      by rewrite Hbin, (decodeFileContent_invalid b err Hdec).
  - intros events. unfold processEventBuffer.
    destruct (processWatchEvents_spec (concat events) st) as (st' & Hrun & _). eauto.
Qed.

End WatcherFacts.

(** ** saveFile *)

Section SaveFacts.

Context {api : SandboxApi}.

(** [saveFile] case by case: the promise, then the write, then the
    snapshot (taken when the old content is truthy and the path has
    none yet) and the new entry. *)
Lemma saveFile_unfold p c (w : World) :
  saveFile p c w =
  match webcontainer w with
  | Throw e => (Throw e, w)
  | Normal wc =>
      let rel := nodePath_relative (workdir wc) p in
      let old := getFile (store w) p in
      let capture :=
        truthy old && negb (mapHas (modifiedFiles (store w)) p) in
      match fs_writeFile rel c (sandbox w) with
      | (Throw e, fs') =>
          (Throw e, mkWorld (store w) (webcontainer w) fs' (trace w ++ [FsWriteFile rel c]))
      | (Normal _, fs') =>
          (Normal tt,
           mkWorld
             (mkStore (<[p := fileDirent c false]> (files (store w)))
                      (lockedFiles (store w)) (size (store w))
                      (if capture then <[p := default "" old]> (modifiedFiles (store w))
                       else modifiedFiles (store w)))
             (webcontainer w) fs'
             (trace w ++ [FsWriteFile rel c]
                ++ (if capture then [ModifiedFilesSet p (default "" old)] else [])
                ++ [FilesSetKey p (Some (fileDirent c false))]))
      end
  end.
Proof.
  unfold saveFile, tryCatch, bind, awaitWebcontainer, getFileM, writeFileM,
    modifiedFilesHas, modifiedFilesSet, filesSetKey, ret, throw, record.
  destruct w as [st wc fs tr]; simpl.
  destruct wc as [wc|e]; [|done].
  destruct (fs_writeFile (nodePath_relative (workdir wc) p) c fs) as [[[]|e] fs']; [|done].
  destruct (truthy (getFile st p)); simpl; [destruct (mapHas (modifiedFiles st) p); simpl|];
    by rewrite <- ?app_assoc.
Qed.

Lemma saveFile_success p c (w w1 : World) :
  saveFile p c w = (Normal tt, w1) →
  files (store w1) = <[p := fileDirent c false]> (files (store w))
  ∧ modifiedFiles (store w1) =
      (if truthy (getFile (store w) p)
          && negb (mapHas (modifiedFiles (store w)) p)
       then <[p := default "" (getFile (store w) p)]> (modifiedFiles (store w))
       else modifiedFiles (store w))
  ∧ getFile (store w1) p = Some c.
Proof.
  rewrite saveFile_unfold. destruct (webcontainer w) as [wc|e]; [|done]. simpl.
  destruct (fs_writeFile _ _ _) as [[[]|e] fs']; [|done].
  intros [= <-]. simpl. split_and!; try done.
  unfold getFile. simpl. by rewrite lookup_insert_eq.
Qed.

Lemma saveFile_keeps_snapshot p c s (w w1 : World) :
  modifiedFiles (store w) !! p = Some s →
  saveFile p c w = (Normal tt, w1) →
  modifiedFiles (store w1) !! p = Some s.
Proof.
  intros Hs (_ & Hm & _)%saveFile_success. rewrite Hm.
  unfold mapHas. rewrite Hs. by rewrite andb_false_r.
Qed.

Lemma saveFiles_cons p c cs (w w' : World) :
  saveFiles p (c :: cs) w = (Normal tt, w') →
  ∃ w1, saveFile p c w = (Normal tt, w1) ∧ saveFiles p cs w1 = (Normal tt, w').
Proof.
  simpl. unfold bind. destruct (saveFile p c w) as [[[]|e] w1]; [eauto|done].
Qed.

Lemma saveFiles_keeps_snapshot p cs s (w w' : World) :
  modifiedFiles (store w) !! p = Some s →
  saveFiles p cs w = (Normal tt, w') →
  modifiedFiles (store w') !! p = Some s.
Proof.
  revert w. induction cs as [|c cs IH]; intros w Hs.
  - simpl. unfold ret. by intros [= <-].
  - intros (w1 & H1 & Hrest)%saveFiles_cons.
    eapply IH; [|done]. by eapply saveFile_keeps_snapshot.
Qed.

Lemma truthy_nonempty s : s ≠ "" → truthy (Some s) = true.
Proof. by destruct s. Qed.


(** C2.  Whatever [saveFile] does it does after the write to the sandbox:
    if the container promise is fulfilled, the effects of the call start
    with the write, and only changes of the store's own maps come after
    it; the write is performed, once: the sandbox is left in the state
    in which [fs.writeFile] of the relative path and the content leaves
    it.  If the write is rejected, [saveFile] throws the error of the
    write and the store (the FileMap and the ModificationSet with it) is
    as it was before the call; so it is when the container promise is
    rejected.  A call that changes the store at all has completed
    normally. *)
Theorem saveFile_writes_first (w : World) filePath content :
  (∀ wc, webcontainer w = Normal wc →
     (∃ rest,
        trace (saveFile filePath content w).2
        = trace w ++ FsWriteFile (nodePath_relative (workdir wc) filePath) content :: rest
        ∧ forallb isLocalMutation rest = true)
     ∧ sandbox (saveFile filePath content w).2
       = (fs_writeFile (nodePath_relative (workdir wc) filePath) content (sandbox w)).2)
  ∧ (∀ wc err fs',
       webcontainer w = Normal wc →
       fs_writeFile (nodePath_relative (workdir wc) filePath) content (sandbox w)
       = (Throw err, fs') →
       (saveFile filePath content w).1 = Throw err
       ∧ store (saveFile filePath content w).2 = store w
       ∧ files (store (saveFile filePath content w).2) = files (store w)
       ∧ modifiedFiles (store (saveFile filePath content w).2) = modifiedFiles (store w))
  ∧ (∀ err, webcontainer w = Throw err → saveFile filePath content w = (Throw err, w))
  ∧ ((saveFile filePath content w).1 = Normal tt
     ∨ store (saveFile filePath content w).2 = store w).
Proof.
  rewrite saveFile_unfold. split_and!.
  - intros wc ->. simpl.
    destruct (fs_writeFile _ _ _) as [[[]|e] fs']; simpl.
    + split; [|done]. eexists. split; [done|].
      by destruct (truthy _ && negb _).
    + split; [by exists []|done].
  - intros wc err fs' -> Hw. simpl. by rewrite Hw.
  - by intros err ->.
  - destruct (webcontainer w) as [wc|e]; [|by right]. simpl.
    destruct (fs_writeFile _ _ _) as [[[]|e] fs']; [by left|by right].
Qed.

(** C3.  Take a path whose stored file has a (non-empty) content [old].
    A successful save leaves the snapshot of the path at the one it had,
    or at [old] if it had none, and makes the entry a non-binary file with
    the new content.  A second successful save changes the entry again
    and leaves the snapshot alone.  Once the modifications are reset
    there is no snapshot, and the next save takes one anew. *)
Theorem saveFile_first_write_wins (w w1 w2 : World) p old c1 c2 :
  getFile (store w) p = Some old →
  old ≠ "" →
  saveFile p c1 w = (Normal tt, w1) →
  saveFile p c2 w1 = (Normal tt, w2) →
  modifiedFiles (store w1) !! p = Some (default old (modifiedFiles (store w) !! p))
  ∧ (∀ q, q ≠ p → modifiedFiles (store w1) !! q = modifiedFiles (store w) !! q)
  ∧ files (store w1) !! p = Some (mkDirent TFile (Some c1) (Some false))
  ∧ files (store w2) !! p = Some (mkDirent TFile (Some c2) (Some false))
  ∧ modifiedFiles (store w2) = modifiedFiles (store w1)
  ∧ getFileModifications (resetFileModifications (store w2)) = ∅
  ∧ (∀ c3 w3, c2 ≠ "" →
       saveFile p c3 (updateStore resetFileModifications w2) = (Normal tt, w3) →
       modifiedFiles (store w3) !! p = Some c2).
Proof.
  intros Hold Hne (Hf1 & Hm1 & Hg1)%saveFile_success (Hf2 & Hm2 & Hg2)%saveFile_success.
  rewrite Hold in Hm1. rewrite (truthy_nonempty old Hne) in Hm1. simpl in Hm1.
  assert (modifiedFiles (store w1) !! p = Some (default old (modifiedFiles (store w) !! p)))
    as Hsnap.
  { rewrite Hm1. unfold mapHas. destruct (modifiedFiles (store w) !! p) as [s|] eqn:Hs; simpl.
    - done.
    - by rewrite lookup_insert_eq. }
  split_and!.
  - done.
  - intros q Hq. rewrite Hm1. destruct (negb _); [by rewrite lookup_insert_ne|done].
  - by rewrite Hf1, lookup_insert_eq.
  - by rewrite Hf2, lookup_insert_eq.
  - rewrite Hm2. unfold mapHas. rewrite Hsnap. by rewrite andb_false_r.
  - unfold getFileModifications, resetFileModifications. simpl. apply fmap_empty.
  - intros c3 w3 Hc2 (_ & Hm3 & _)%saveFile_success.
    simpl in Hm3. unfold mapHas in Hm3. rewrite lookup_empty in Hm3.
    assert (getFile (resetFileModifications (store w2)) p = Some c2) as Hg by exact Hg2.
    rewrite Hg, (truthy_nonempty c2 Hc2) in Hm3. simpl in Hm3.
    by rewrite Hm3, lookup_insert_eq.
Qed.

Lemma saveFile_empty_old_keeps_modifications (w w1 : World) p c :
  getFile (store w) p = None ∨ getFile (store w) p = Some "" →
  saveFile p c w = (Normal tt, w1) →
  modifiedFiles (store w1) = modifiedFiles (store w).
Proof.
  intros Hold (_ & Hm & _)%saveFile_success.
  by destruct Hold as [Hold | Hold]; rewrite Hold in Hm.
Qed.

Lemma saveFiles_snapshot (w w' : World) p cs :
  getFile (store w) p = None ∨ getFile (store w) p = Some "" →
  modifiedFiles (store w) !! p = None →
  saveFiles p cs w = (Normal tt, w') →
  modifiedFiles (store w') !! p = find (λ c, negb (Str.isEmpty c)) (removelast cs).
Proof.
  revert w. induction cs as [|c cs IH]; intros w Hold Hnone.
  - simpl. unfold ret. by intros [= <-].
  - intros (w1 & H1 & Hrest)%saveFiles_cons.
    pose proof (saveFile_empty_old_keeps_modifications w w1 p c Hold H1) as Hm1.
    destruct (saveFile_success p c w w1 H1) as (_ & _ & Hg1).
    destruct cs as [|c2 cs].
    + simpl in Hrest. unfold ret in Hrest. injection Hrest as <-.
      simpl. by rewrite Hm1.
    + change (removelast (c :: c2 :: cs)) with (c :: removelast (c2 :: cs)).
      cbn [find]. destruct c as [|a c]; cbn [Str.isEmpty negb].
      * apply (IH w1); [by right|by rewrite Hm1|done].
      * apply saveFiles_cons in Hrest as (w2 & H2 & Hrest).
        eapply saveFiles_keeps_snapshot; [|done].
        destruct (saveFile_success p c2 w1 w2 H2) as (_ & Hm2 & _).
        rewrite Hm2, Hg1. unfold mapHas. rewrite Hm1, Hnone. simpl.
        by rewrite lookup_insert_eq.
Qed.

(** C10, as amended.  When the stored content of a path is the empty
    string, or [getFile] yields undefined for it (a binary file, a folder
    or an absent path), a successful save records no snapshot: the
    modifications are as before.  Over repeated saves of a path that
    starts so and without a snapshot, the snapshot after the last save is
    the first non-empty content among those written by the saves before
    the last; the path stays out of [getFileModifications] exactly when
    all of those are empty. *)
Theorem saveFile_empty_old_records_nothing (w : World) p :
  getFile (store w) p = None ∨ getFile (store w) p = Some "" →
  (∀ c w1, saveFile p c w = (Normal tt, w1) →
     modifiedFiles (store w1) = modifiedFiles (store w)
     ∧ getFileModifications (store w1) = getFileModifications (store w))
  ∧ (∀ cs w', modifiedFiles (store w) !! p = None →
       saveFiles p cs w = (Normal tt, w') →
       modifiedFiles (store w') !! p = find (λ c, negb (Str.isEmpty c)) (removelast cs)
       ∧ (getFileModifications (store w') !! p = None
          ↔ Forall (λ c, c = "") (removelast cs))).
Proof.
  intros Hold. split.
  - intros c w1 H1.
    pose proof (saveFile_empty_old_keeps_modifications w w1 p c Hold H1) as Hm.
    unfold getFileModifications. by rewrite Hm.
  - intros cs w' Hnone Hrun.
    pose proof (saveFiles_snapshot w w' p cs Hold Hnone Hrun) as Hsnap.
    split; [done|]. unfold getFileModifications. rewrite lookup_fmap, Hsnap.
    clear. induction (removelast cs) as [|c l IH]; simpl.
    + split; [constructor|done].
    + rewrite Forall_cons. destruct c as [|a c]; simpl.
      * rewrite IH. tauto.
      * split; [done|]. by intros [? _].
Qed.

End SaveFacts.

(** ** The watcher on the example batch *)

(** On the example batch: [/src/a.ts] ends with the entry of its change
    event, the latest that touches it; [/tmp/x], added and then removed
    with its directory, ends absent. *)
Lemma processEventBuffer_latest_event_decides_witness :
  (∃ st', @processEventBuffer Example.platform emptyStore Example.batch
          = Normal st'
     ∧ files st' !! "/src/a.ts" = Some (fileDirent "bye" false)
     ∧ ((forallb (λ e, negb (touchesPath e "/src/a.ts")) (concat Example.batch) = true
         ∧ files st' !! "/src/a.ts" = files emptyStore !! "/src/a.ts")
        ∨ (∃ pre e post,
             concat Example.batch = pre ++ e :: post
             ∧ addsPath e "/src/a.ts" = true
             ∧ forallb (λ e', negb (touchesPath e' "/src/a.ts")) post = true
             ∧ files st' !! "/src/a.ts"
               = @entryAfter Example.platform e "/src/a.ts")))
  ∧ (∃ st', @processEventBuffer Example.platform emptyStore Example.batch
            = Normal st'
       ∧ files st' !! "/tmp/x" = None).
Proof.
  split.
  - destruct (@processEventBuffer_latest_event_decides Example.platform emptyStore Example.batch "/src/a.ts")
      as (st' & Hrun & Hadd & _ & Hpresent).
    exists st'. split; [exact Hrun|].
    destruct (Hadd [mkEvent add_dir "/src/" None;
                    mkEvent add_file "/src/a.ts" (Example.bytes "hi");
                    mkEvent add_file "/tmp/x" (Example.bytes "scratch");
                    mkEvent remove_dir "/tmp" None]
                   (mkEvent change "/src/a.ts" (Example.bytes "bye"))
                   [mkEvent remove_file "/tmp/x" None])
      as [Hsome Hentry]; [reflexivity | reflexivity | reflexivity |].
    split; [rewrite Hentry; reflexivity | exact (Hpresent Hsome)].
  - destruct (@processEventBuffer_latest_event_decides Example.platform emptyStore Example.batch "/tmp/x")
      as (st' & Hrun & _ & Hrem & _).
    exists st'. split; [exact Hrun|].
    apply (Hrem [mkEvent add_dir "/src/" None;
                 mkEvent add_file "/src/a.ts" (Example.bytes "hi");
                 mkEvent add_file "/tmp/x" (Example.bytes "scratch")]
                (mkEvent remove_dir "/tmp" None)
                [mkEvent change "/src/a.ts" (Example.bytes "bye");
                 mkEvent remove_file "/tmp/x" None]); reflexivity.
Defined.

(** C1 as stated fails: a path that received a directory removal, and a
    path prefixed by it, are present when later events of the batch add
    them again. *)
Lemma removed_directory_present_after_readding :
  ¬ (∀ st' e p,
       @processEventBuffer Example.platform emptyStore Example.readded
       = Normal st' →
       e ∈ concat Example.readded →
       ev_type e = remove_dir →
       Str.startsWith p (Str.stripTrailingSlashes (ev_path e)) = true →
       files st' !! p = None).
Proof.
  intros H.
  assert (∃ st', @processEventBuffer Example.platform emptyStore
                   Example.readded = Normal st'
                 ∧ files st' !! "/src/a.ts" = Some (fileDirent "hi" false)
                 ∧ files st' !! "/src" = Some folderDirent) as (st' & Hrun & Hfile & Hdir).
  { eexists. split; [vm_compute; reflexivity|]. split; vm_compute; reflexivity. }
  specialize (H st' (mkEvent remove_dir "/src" None) "/src/a.ts" Hrun).
  rewrite Hfile in H. discriminate H; [left | reflexivity | reflexivity].
Qed.

(** Removing [/src] from a map that holds [/src2/b.ts] removes it. *)
Lemma remove_dir_removes_by_string_prefix_witness :
  ∃ st', @processEvent Example.platform
           (mkStore {[ "/src2/b.ts" := fileDirent "b" false; "/lib" := folderDirent ]} ∅ 1 ∅)
           (mkEvent remove_dir "/src" None) = Normal st'
    ∧ files st' !! "/src2/b.ts" = None
    ∧ files st' !! "/src.bak" = None.
Proof.
  destruct (@remove_dir_removes_by_string_prefix Example.platform
              (mkStore {[ "/src2/b.ts" := fileDirent "b" false; "/lib" := folderDirent ]} ∅ 1 ∅)
              "/src" None) as (st' & Hrun & _ & Hprefix & Hsiblings).
  exists st'. split; [exact Hrun|]. split.
  - apply Hprefix. reflexivity.
  - apply Hsiblings. reflexivity.
Defined.

(** C6 as stated fails on its first half: the entry of a binary payload
    does hold a content, the empty string. *)
Lemma binary_entry_holds_empty_content :
  ¬ (∀ st' d,
       @processEvent Example.platform emptyStore Example.binaryAdd
       = Normal st' →
       @isBinaryFile Example.platform (ev_buffer Example.binaryAdd) = true →
       files st' !! "/logo.png" = Some d →
       content d = None ∧ isBinary d = Some true).
Proof.
  intros H.
  destruct (H (mkStore {[ "/logo.png" := fileDirent "" true ]} ∅ 1 ∅) (fileDirent "" true))
    as [Hcontent _]; [vm_compute; reflexivity | reflexivity | vm_compute; reflexivity |].
  discriminate Hcontent.
Qed.

(** A payload with a NUL byte and a payload with the byte [0xff]: both
    events yield a store, with an empty content. *)
Lemma file_event_never_throws_witness :
  (∃ st', @processEvent Example.platform emptyStore Example.binaryAdd
          = Normal st'
     ∧ files st' !! "/logo.png" = Some (mkDirent TFile (Some "") (Some true)))
  ∧ (∃ st', @processEvent Example.platform emptyStore Example.invalidAdd
            = Normal st'
       ∧ files st' !! "/notes.txt" = Some (mkDirent TFile (Some "") (Some false))).
Proof.
  split.
  - destruct (@file_event_never_throws Example.platform emptyStore
                add_file "/logo.png" (Some [Byte.x89; Byte.x50; Byte.x00; Byte.x47]))
      as [(st' & Hrun & Hbinary & _) _]; [left; reflexivity|].
    exists st'. split; [exact Hrun|]. apply Hbinary. reflexivity.
  - destruct (@file_event_never_throws Example.platform emptyStore
                add_file "/notes.txt" (Some [Byte.x68; Byte.xff; Byte.x69]))
      as [(st' & Hrun & _ & Htext) _]; [left; reflexivity|].
    exists st'. split; [exact Hrun|].
    apply (Htext [Byte.x68; Byte.xff; Byte.x69] (mkError "The encoded data was not valid."));
      reflexivity.
Defined.

(** ** saveFile on the example sandboxes *)

(** On a sandbox that rejects every write the save throws and the
    store is kept; on one that accepts, the write heads the trace and
    the sandbox holds what was written. *)
Lemma saveFile_writes_first_witness :
  (@saveFile Example.failingSandbox Example.aPath "bye"
     (Example.world Example.failingSandbox [] Example.loaded)).1
  = Throw (mkError "EIO: write failed")
  ∧ store (@saveFile Example.failingSandbox Example.aPath "bye"
             (Example.world Example.failingSandbox [] Example.loaded)).2
    = Example.loaded
  ∧ (∃ rest,
       trace (@saveFile Example.sandbox Example.aPath "bye"
                (Example.world Example.sandbox [] Example.loaded)).2
       = FsWriteFile "src/a.ts" "bye" :: rest
       ∧ forallb isLocalMutation rest = true)
  ∧ sandbox (@saveFile Example.sandbox Example.aPath "bye"
               (Example.world Example.sandbox [] Example.loaded)).2
    = [("src/a.ts", "bye")].
Proof.
  destruct (@saveFile_writes_first Example.failingSandbox
              (Example.world Example.failingSandbox [] Example.loaded) Example.aPath "bye")
    as (_ & Hfail & _ & _).
  destruct (Hfail (mkWebContainer "/home/project") (mkError "EIO: write failed") [])
    as (Hthrow & Hstore & _); [reflexivity | reflexivity |].
  split; [exact Hthrow|]. split; [exact Hstore|].
  destruct (@saveFile_writes_first Example.sandbox
              (Example.world Example.sandbox [] Example.loaded) Example.aPath "bye")
    as (Horder & _).
  exact (Horder (mkWebContainer "/home/project") eq_refl).
Defined.

(** The scenario of the spec: [hi] is saved over with [bye], then with
    [bye2]; the snapshot stays [hi]. *)
Lemma saveFile_first_write_wins_witness :
  ∃ w1 w2,
    @saveFile Example.sandbox Example.aPath "bye"
      (Example.world Example.sandbox [] Example.loaded) = (Normal tt, w1)
    ∧ @saveFile Example.sandbox Example.aPath "bye2" w1 = (Normal tt, w2)
    ∧ modifiedFiles (store w1) !! Example.aPath = Some "hi"
    ∧ files (store w1) !! Example.aPath = Some (mkDirent TFile (Some "bye") (Some false))
    ∧ files (store w2) !! Example.aPath = Some (mkDirent TFile (Some "bye2") (Some false))
    ∧ modifiedFiles (store w2) !! Example.aPath = Some "hi".
Proof.
  pose (w0 := Example.world Example.sandbox [] Example.loaded).
  pose (w1 := (@saveFile Example.sandbox Example.aPath "bye" w0).2).
  pose (w2 := (@saveFile Example.sandbox Example.aPath "bye2" w1).2).
  exists w1, w2.
  assert (@saveFile Example.sandbox Example.aPath "bye" w0 = (Normal tt, w1)) as H1
    by (vm_compute; reflexivity).
  assert (@saveFile Example.sandbox Example.aPath "bye2" w1 = (Normal tt, w2)) as H2
    by (vm_compute; reflexivity).
  destruct (@saveFile_first_write_wins Example.sandbox w0 w1 w2 Example.aPath "hi" "bye" "bye2")
    as (Hsnap1 & _ & Hfile1 & Hfile2 & Hsnap2 & _);
    [vm_compute; reflexivity | discriminate | exact H1 | exact H2 |].
  split; [exact H1|]. split; [exact H2|]. split; [exact Hsnap1|].
  split; [exact Hfile1|]. split; [exact Hfile2|].
  rewrite Hsnap2. exact Hsnap1.
Defined.

(** C10 as stated fails: a path that is absent at first is among the
    modifications after its second save, the first having written a
    non-empty content. *)
Lemma new_file_modified_after_second_save :
  ¬ (∀ cs w',
       getFile emptyStore "/home/project/new.ts" = None →
       @saveFiles Example.sandbox "/home/project/new.ts" cs
         (Example.world Example.sandbox [] emptyStore) = (Normal tt, w') →
       getFileModifications (store w') !! "/home/project/new.ts" = None).
Proof.
  intros H.
  specialize (H ["x"; "y"]
                (@saveFiles Example.sandbox "/home/project/new.ts" ["x"; "y"]
                   (Example.world Example.sandbox [] emptyStore)).2).
  assert (getFileModifications
            (store (@saveFiles Example.sandbox "/home/project/new.ts" ["x"; "y"]
                      (Example.world Example.sandbox [] emptyStore)).2)
          !! "/home/project/new.ts" = Some true) as Hmod by (vm_compute; reflexivity).
  rewrite Hmod in H. discriminate H; vm_compute; reflexivity.
Qed.

(** A new path saved with the empty string twice and then with [x] is
    not among the modifications. *)
Lemma saveFile_empty_old_records_nothing_witness :
  ∃ w', @saveFiles Example.sandbox "/home/project/new.ts" [""; ""; "x"]
          (Example.world Example.sandbox [] emptyStore) = (Normal tt, w')
    ∧ modifiedFiles (store w') !! "/home/project/new.ts" = None
    ∧ getFileModifications (store w') !! "/home/project/new.ts" = None.
Proof.
  pose (w0 := Example.world Example.sandbox [] emptyStore).
  pose (w' := (@saveFiles Example.sandbox "/home/project/new.ts" [""; ""; "x"] w0).2).
  exists w'.
  assert (@saveFiles Example.sandbox "/home/project/new.ts" [""; ""; "x"] w0 = (Normal tt, w'))
    as Hrun by (vm_compute; reflexivity).
  destruct (@saveFile_empty_old_records_nothing Example.sandbox w0 "/home/project/new.ts")
    as [_ Hmany]; [left; reflexivity|].
  destruct (Hmany [""; ""; "x"] w') as [Hsnap Hout]; [reflexivity | exact Hrun |].
  split; [exact Hrun|]. split; [exact Hsnap|].
  apply Hout. repeat constructor.
Defined.

(** ** The visibility filter *)

(** C5, as amended.  On the example list with [A] collapsed the visible
    list is exactly [A, C].  One pass of the loop, with threshold
    [lastDepth]: a collapsed folder that is not itself below the
    threshold is kept and makes its depth the threshold; a node deeper
    than the threshold is dropped and the threshold stays; a node at
    exactly the threshold depth clears the threshold and is kept; a node
    above the threshold is kept and the threshold stays. *)
Theorem filteredFileList_collapse :
  filteredFileList Example.nodes {[ "A" ]} = [Example.nodeA; Example.nodeC]
  ∧ ∀ (collapsedFolders : gset string) lastDepth list n,
      (fullPath n ∈ collapsedFolders → depth n ≤ lastDepth → depth n ≤ MAX_SAFE_INTEGER →
       filterStep collapsedFolders (lastDepth, list) n = (depth n, list ++ [n]))
      ∧ (lastDepth < depth n →
         filterStep collapsedFolders (lastDepth, list) n = (lastDepth, list))
      ∧ (depth n = lastDepth → depth n ≤ MAX_SAFE_INTEGER → fullPath n ∉ collapsedFolders →
         filterStep collapsedFolders (lastDepth, list) n = (MAX_SAFE_INTEGER, list ++ [n]))
      ∧ (depth n < lastDepth → fullPath n ∉ collapsedFolders →
         filterStep collapsedFolders (lastDepth, list) n = (lastDepth, list ++ [n])).
Proof.
  split; [vm_compute; reflexivity|].
  intros collapsedFolders lastDepth list n. unfold filterStep. split_and!.
  - intros Hin Hle Hmax. rewrite bool_decide_eq_true_2 by done.
    destruct (lastDepth =? depth n) eqn:Heq.
    + rewrite Z.min_r by done. by rewrite Z.ltb_irrefl.
    + rewrite Z.min_r by done. by rewrite Z.ltb_irrefl.
  - intros Hlt. rewrite (proj2 (Z.eqb_neq _ _)) by lia.
    case_bool_decide.
    + rewrite Z.min_l by lia. by rewrite (proj2 (Z.ltb_lt _ _)).
    + by rewrite (proj2 (Z.ltb_lt _ _)).
  - intros <- Hmax Hout. rewrite Z.eqb_refl. rewrite bool_decide_eq_false_2 by done.
    by rewrite (proj2 (Z.ltb_ge _ _)).
  - intros Hlt Hout. rewrite (proj2 (Z.eqb_neq _ _)) by lia.
    rewrite bool_decide_eq_false_2 by done.
    rewrite (proj2 (Z.ltb_ge _ _)) by lia. done.
Qed.

(** The four cases of one pass, on the nodes of the example. *)
Lemma filteredFileList_collapse_witness :
  filterStep {[ "A" ]} (MAX_SAFE_INTEGER, []) Example.nodeA = (0, [Example.nodeA])
  ∧ filterStep {[ "A" ]} (0, [Example.nodeA]) Example.nodeAx = (0, [Example.nodeA])
  ∧ filterStep {[ "A" ]} (0, [Example.nodeA]) Example.nodeC
    = (MAX_SAFE_INTEGER, [Example.nodeA; Example.nodeC])
  ∧ filterStep {[ "A" ]} (1, [Example.nodeA]) Example.nodeC = (1, [Example.nodeA; Example.nodeC]).
Proof.
  destruct filteredFileList_collapse as [_ Hstep].
  split; [|split; [|split]].
  - destruct (Hstep {[ "A" ]} MAX_SAFE_INTEGER [] Example.nodeA) as (Hcollapsed & _).
    apply Hcollapsed; [vm_compute; reflexivity | discriminate | discriminate].
  - destruct (Hstep {[ "A" ]} 0 [Example.nodeA] Example.nodeAx) as (_ & Hdeeper & _).
    apply Hdeeper. reflexivity.
  - destruct (Hstep {[ "A" ]} 0 [Example.nodeA] Example.nodeC) as (_ & _ & Hequal & _).
    apply Hequal; [reflexivity | discriminate | vm_compute; discriminate].
  - destruct (Hstep {[ "A" ]} 1 [Example.nodeA] Example.nodeC) as (_ & _ & _ & Habove).
    apply Habove; [reflexivity | vm_compute; discriminate].
Defined.

(** C5 as stated fails on its general half: with the threshold at depth
    0, the node [C] at depth 0 is not dropped. *)
Lemma node_at_threshold_depth_is_kept :
  ¬ (∀ (collapsedFolders : gset string) lastDepth list n,
       lastDepth < MAX_SAFE_INTEGER →
       depth n >= lastDepth →
       (filterStep collapsedFolders (lastDepth, list) n).2 = list).
Proof.
  intros H.
  specialize (H {[ "A" ]} 0 [Example.nodeA] Example.nodeC).
  discriminate H; [reflexivity | discriminate].
Qed.

(** ** Sorting the node list *)

Section SortFacts.

Variable cmp : Node → Node → Z.
Hypothesis cmp_consistent : consistentComparator cmp.

Lemma insertSorted_Permutation x l : Permutation (insertSorted cmp x l) (x :: l).
Proof.
  induction l as [|y l IH]; simpl; [done|].
  destruct (cmp x y <=? 0); [done|].
  rewrite IH. apply perm_swap.
Qed.

Lemma sortNodes_Permutation l : Permutation (sortNodes cmp l) l.
Proof.
  induction l as [|x l IH]; simpl; [done|].
  rewrite insertSorted_Permutation. by constructor.
Qed.

Lemma insertSorted_StronglySorted x l :
  StronglySorted (λ a b, cmp a b <= 0) l →
  StronglySorted (λ a b, cmp a b <= 0) (insertSorted cmp x l).
Proof.
  destruct cmp_consistent as [Htotal Htrans].
  induction l as [|y l IH]; simpl; intros Hl.
  - repeat constructor.
  - apply StronglySorted_inv in Hl as [Hl Hy].
    destruct (cmp x y <=? 0) eqn:Hxy.
    + apply Z.leb_le in Hxy. constructor; [by constructor|].
      constructor; [done|]. eapply Forall_impl; [exact Hy|].
      intros z Hz. by eapply Htrans.
    + apply Z.leb_gt in Hxy. constructor; [by apply IH|].
      rewrite insertSorted_Permutation. constructor; [|done].
      apply Htotal. lia.
Qed.

Lemma sortNodes_StronglySorted l :
  StronglySorted (λ a b, cmp a b <= 0) (sortNodes cmp l).
Proof.
  induction l as [|x l IH]; simpl; [constructor|]. by apply insertSorted_StronglySorted.
Qed.

Lemma sortNodes_ordered l pre a mid b post :
  sortNodes cmp l = pre ++ a :: mid ++ b :: post → cmp a b <= 0.
Proof.
  intros Hsplit. pose proof (sortNodes_StronglySorted l) as Hs.
  rewrite Hsplit in Hs. apply StronglySorted_app_1_r in Hs.
  apply StronglySorted_inv in Hs as [_ Ha].
  rewrite Forall_forall in Ha. apply Ha. apply elem_of_app. right. left.
Qed.

End SortFacts.

Section CompareFacts.

Context {collation : Collation}.
Hypothesis localeCompare_consistent : consistentComparator localeCompare.

Lemma compareNodes_consistent : consistentComparator compareNodes.
Proof.
  destruct localeCompare_consistent as [Htotal Htrans].
  unfold compareNodes. split.
  - intros a b. repeat case_bool_decide; destruct (kind a), (kind b); try done; try lia.
    all: apply Htotal.
  - intros a b c. repeat case_bool_decide; destruct (kind a), (kind b), (kind c);
      try done; try lia.
    all: apply Htrans.
Qed.

Lemma compareNodes_le a b :
  compareNodes a b <= 0 →
  (kind a = file → kind b = file)
  ∧ (kind a = kind b → localeCompare (name a) (name b) <= 0).
Proof.
  unfold compareNodes. case_bool_decide as Hk; destruct (kind a), (kind b); try done; try lia.
Qed.

End CompareFacts.

Lemma compareCodeUnits_consistent : consistentComparator Example.compareCodeUnits.
Proof.
  unfold Example.compareCodeUnits. split.
  - intros a b. rewrite (String.compare_antisym b a).
    destruct (String.compare a b); simpl; lia.
  - intros a b c.
    destruct (String.compare a b) eqn:Hab; [| |lia];
      destruct (String.compare b c) eqn:Hbc; try lia; intros _ _.
    + apply OrderedTypeEx.String_as_OT.cmp_eq in Hab, Hbc. subst.
      pose proof (proj2 (OrderedTypeEx.String_as_OT.cmp_eq c c) eq_refl) as Hcc.
      unfold OrderedTypeEx.String_as_OT.cmp in Hcc. rewrite Hcc. lia.
    + apply OrderedTypeEx.String_as_OT.cmp_eq in Hab. subst. rewrite Hbc. lia.
    + apply OrderedTypeEx.String_as_OT.cmp_eq in Hbc. subst. rewrite Hab. lia.
    + apply OrderedTypeEx.String_as_OT.cmp_lt in Hab, Hbc.
      pose proof (OrderedTypeEx.String_as_OT.lt_trans _ _ _ Hab Hbc) as Hac.
      apply OrderedTypeEx.String_as_OT.cmp_lt in Hac.
      unfold OrderedTypeEx.String_as_OT.cmp in Hac. rewrite Hac. lia.
Qed.

(** ** The visibility filter with nothing collapsed *)

Lemma foldl_filterStep_empty (l acc : list Node) :
  Forall (λ n, depth n <= MAX_SAFE_INTEGER) l →
  foldl (filterStep ∅) (MAX_SAFE_INTEGER, acc) l = (MAX_SAFE_INTEGER, acc ++ l).
Proof.
  revert acc. induction l as [|n l IH]; intros acc Hl; cbn [foldl].
  - by rewrite app_nil_r.
  - apply Forall_cons in Hl as [Hn Hl].
    assert (filterStep ∅ (MAX_SAFE_INTEGER, acc) n = (MAX_SAFE_INTEGER, acc ++ [n])) as ->.
    { unfold filterStep. rewrite bool_decide_eq_false_2 by set_solver.
      destruct (MAX_SAFE_INTEGER =? depth n); by rewrite (proj2 (Z.ltb_ge _ _)). }
    rewrite IH by done. by rewrite <- app_assoc.
Qed.

Lemma filteredFileList_empty (l : list Node) :
  Forall (λ n, depth n <= MAX_SAFE_INTEGER) l → filteredFileList l ∅ = l.
Proof. intros Hl. unfold filteredFileList. by rewrite foldl_filterStep_empty. Qed.

(** ** Building the node list below the root *)

Lemma emits_nil seen bound : emits seen seen [] [] [] bound.
Proof.
  unfold emits. simpl. split_and!; try done.
  - constructor.
  - intros f. split; [by intros ?%elem_of_nil|by intros [_ ?%elem_of_nil]].
  - intros f. split; [by left|]. by intros [?|?%elem_of_nil].
Qed.

Lemma emits_app seen seen1 seen2 new0 new1 files0 files1 folders0 folders1 bound :
  emits seen seen1 new0 files0 folders0 bound →
  emits seen1 seen2 new1 files1 folders1 bound →
  emits seen seen2 (new0 ++ new1) (files0 ++ files1) (folders0 ++ folders1) bound.
Proof.
  intros (Hf0 & Hnd0 & Hin0 & Hs0 & Hd0) (Hf1 & Hnd1 & Hin1 & Hs1 & Hd1).
  unfold emits. rewrite !filter_app, !fmap_app. split_and!.
  - by rewrite Hf0, Hf1.
  - apply NoDup_app. split_and!; try done.
    intros f H0 H1. apply Hin1 in H1 as [Hnot _]. apply Hin0 in H0 as [_ H0].
    apply Hnot. apply Hs0. by right.
  - intros f. rewrite !elem_of_app, Hin0, Hin1, Hs0.
    destruct (decide (f ∈ folders0)); tauto.
  - intros f. rewrite Hs1, Hs0, elem_of_app. tauto.
  - by apply Forall_app.
Qed.

Lemma emits_file seen n bound :
  kind n = file → depth n <= bound → emits seen seen [n] [fullPath n] [] bound.
Proof.
  intros Hk Hd. unfold emits.
  rewrite filter_cons_True, filter_nil by done.
  rewrite filter_cons_False, filter_nil by (rewrite Hk; done).
  simpl. split_and!; try done.
  - constructor.
  - intros f. split; [by intros ?%elem_of_nil|by intros [_ ?%elem_of_nil]].
  - intros f. split; [by left|]. by intros [?|?%elem_of_nil].
  - by repeat constructor.
Qed.

Lemma emits_folder_new seen n bound :
  kind n = folder → depth n <= bound → fullPath n ∉ seen →
  emits seen ({[fullPath n]} ∪ seen) [n] [] [fullPath n] bound.
Proof.
  intros Hk Hd Hnew. unfold emits.
  rewrite filter_cons_False, filter_nil by (rewrite Hk; done).
  rewrite filter_cons_True, filter_nil by done.
  simpl. split_and!; try done.
  - apply NoDup_singleton.
  - intros f. rewrite !list_elem_of_singleton. split; [by intros ->|by intros [_ ->]].
  - intros f. split.
    + intros [->%elem_of_singleton | Hf]%elem_of_union; [right; left|by left].
    + intros [Hf | ->%list_elem_of_singleton]; apply elem_of_union; [by right|left].
      by apply elem_of_singleton.
  - by repeat constructor.
Qed.

Lemma emits_folder_seen seen f bound :
  f ∈ seen → emits seen seen [] [] [f] bound.
Proof.
  intros Hseen. unfold emits. simpl. split_and!; try done.
  - constructor.
  - intros g. rewrite list_elem_of_singleton.
    split; [by intros ?%elem_of_nil|]. by intros [Hnot ->].
  - intros g. rewrite list_elem_of_singleton. split; [by left|]. by intros [?| ->].
Qed.

Lemma walked_append cur name : walked cur → walked (cur +:+ "/" +:+ name).
Proof.
  intros [-> | Hcur]; right; [done|].
  destruct cur as [|c cur]; [done|]. simpl in *.
  by destruct (Ascii.eqb c "/").
Qed.

Lemma walked_append_not_root cur name :
  walked cur → name ≠ "" → cur +:+ "/" +:+ name ≠ "/".
Proof.
  intros Hcur Hname. destruct cur as [|c cur]; intros H; simpl in H.
  - injection H as H. by destruct name.
  - injection H as _ H. by destruct cur.
Qed.

Lemma walked_not_skipped cur name h :
  walked cur → name ≠ "" →
  negb (Str.startsWith (cur +:+ "/" +:+ name) "/")
  || (h && String.eqb (cur +:+ "/" +:+ name) "/") = false.
Proof.
  intros Hcur Hname.
  destruct (walked_append cur name Hcur) as [Hempty | ->].
  - by destruct cur.
  - simpl. rewrite (proj2 (String.eqb_neq _ _)); [by rewrite andb_false_r|].
    by apply walked_append_not_root.
Qed.

Section WalkFacts.

Variable hideRoot : bool.
Variable defaultDepth : Z.
Variable dirent : option Dirent.
Variable segmentsLength : Z.

Lemma walkSegments_emits rest cur i seen fileList :
  walked cur →
  Forall (λ segment, segment ≠ "") rest →
  i + Z.of_nat (length rest) = segmentsLength →
  ∃ seen' new,
    walkSegments "/" hideRoot defaultDepth dirent segmentsLength rest cur i i (seen, fileList)
    = (seen', fileList ++ new)
    ∧ emits seen seen' new
        (if direntIsFile dirent then option_list (last (prefixPaths cur rest)) else [])
        (if direntIsFile dirent then removelast (prefixPaths cur rest)
         else prefixPaths cur rest)
        (segmentsLength - 1 + (if hideRoot then 0 else defaultDepth)).
Proof.
  revert cur i seen fileList.
  induction rest as [|name rest IH]; intros cur i seen fileList Hcur Hrest Hlen.
  - exists seen, []. simpl. rewrite app_nil_r. split; [done|].
    destruct (direntIsFile dirent); apply emits_nil.
  - apply Forall_cons in Hrest as [Hname Hrest].
    cbn [walkSegments]. rewrite (walked_not_skipped cur name hideRoot Hcur Hname).
    cbn [length] in Hlen.
    set (fullPath := cur +:+ "/" +:+ name).
    set (nodeDepth := i + (if hideRoot then 0 else defaultDepth)).
    assert (nodeDepth <= segmentsLength - 1 + (if hideRoot then 0 else defaultDepth))
      as Hdepth by (unfold nodeDepth; lia).
    assert (walked fullPath) as Hfull by by apply walked_append.
    cbn [prefixPaths]. fold fullPath.
    destruct ((i =? segmentsLength - 1) && direntIsFile dirent) eqn:Hlast.
    + apply andb_true_iff in Hlast as [Hi Hfile]. apply Z.eqb_eq in Hi.
      assert (rest = []) as -> by (destruct rest; [done|simpl in Hlen; lia]).
      rewrite Hfile. simpl.
      eexists seen, [_]. split; [done|].
      by apply (emits_file seen (mkNode file _ nodeDepth name fullPath)).
    + assert (direntIsFile dirent = true → rest ≠ []) as Hmore.
      { intros Hfile ->. rewrite Hfile, andb_true_r in Hlast.
        apply Z.eqb_neq in Hlast. simpl in Hlen. lia. }
      assert ((if direntIsFile dirent
               then option_list (last (fullPath :: prefixPaths fullPath rest)) else [])
              = [] ++ (if direntIsFile dirent
                       then option_list (last (prefixPaths fullPath rest)) else []))
        as ->.
      { destruct (direntIsFile dirent); [|done]. simpl.
        destruct rest; [by destruct Hmore|done]. }
      assert ((if direntIsFile dirent
               then removelast (fullPath :: prefixPaths fullPath rest)
               else fullPath :: prefixPaths fullPath rest)
              = [fullPath] ++ (if direntIsFile dirent
                               then removelast (prefixPaths fullPath rest)
                               else prefixPaths fullPath rest))
        as ->.
      { destruct (direntIsFile dirent); [|done].
        destruct rest; [by destruct Hmore|done]. }
      case_bool_decide as Hseen; cbn [negb].
      * destruct (IH fullPath (i + 1) seen fileList) as (seen' & new & Hrun & Hemits);
          [done | done | lia |].
        exists seen', new. rewrite Hrun. split; [done|].
        change new with ([] ++ new).
        eapply emits_app; [|done]. by apply emits_folder_seen.
      * destruct (IH fullPath (i + 1) ({[fullPath]} ∪ seen)
                    (fileList ++ [mkNode folder (Z.of_nat (length fileList))
                                    nodeDepth name fullPath]))
          as (seen' & new & Hrun & Hemits); [done | done | lia |].
        eexists seen', (_ :: new). rewrite Hrun. split; [by rewrite <- app_assoc|].
        change (?n :: new) with ([n] ++ new).
        eapply emits_app; [|done].
        by apply (emits_folder_new seen (mkNode folder _ nodeDepth name fullPath)).
Qed.

End WalkFacts.

Lemma emits_mono seen seen' new filePaths folderPaths bound bound' :
  bound <= bound' →
  emits seen seen' new filePaths folderPaths bound →
  emits seen seen' new filePaths folderPaths bound'.
Proof.
  intros Hle (Hf & Hnd & Hin & Hs & Hd). unfold emits. split_and!; try done.
  eapply Forall_impl; [exact Hd|]. simpl. intros n Hn. lia.
Qed.

Lemma segment_not_empty (segment : string) :
  negb (Str.isEmpty segment) ↔ segment ≠ "".
Proof. by destruct segment. Qed.

Lemma splitFrom_count s cur :
  (length (filter (λ segment, negb (Str.isEmpty segment)) (Str.splitFrom cur s))
   ≤ (if Str.isEmpty cur then 0 else 1) + String.length s)%nat.
Proof.
  revert cur. induction s as [|c s IH]; intros cur; cbn [Str.splitFrom String.length].
  - rewrite filter_cons, filter_nil. destruct cur; simpl; lia.
  - destruct (Str.isSlash c).
    + rewrite filter_cons. specialize (IH ""). simpl in IH.
      destruct cur; simpl; lia.
    + specialize (IH (cur +:+ String c "")).
      assert (Str.isEmpty (cur +:+ String c "") = false) as Hne by by destruct cur.
      rewrite Hne in IH. destruct (Str.isEmpty cur); lia.
Qed.

Lemma segmentsOf_not_empty filePath :
  Forall (λ segment, segment ≠ "") (segmentsOf filePath).
Proof.
  unfold segmentsOf. apply Forall_forall. intros segment Hin.
  apply list_elem_of_filter in Hin as [Hne _].
  by apply segment_not_empty.
Qed.

Lemma segmentsOf_length filePath :
  (length (segmentsOf filePath) ≤ String.length filePath)%nat.
Proof.
  unfold segmentsOf. destruct (Str.startsWith filePath "/") eqn:Hstart.
  - apply (splitFrom_count filePath "").
  - unfold Str.split. change ("/" +:+ filePath) with (String "/"%char filePath).
    cbn [Str.splitFrom].
    change (Str.isSlash "/"%char) with true. cbn iota.
    rewrite filter_cons_False by (intros H; exact H).
    apply (splitFrom_count filePath "").
Qed.

Lemma prefixPaths_not_root rest cur f :
  walked cur → Forall (λ segment, segment ≠ "") rest →
  f ∈ prefixPaths cur rest → f ≠ "/".
Proof.
  revert cur. induction rest as [|name rest IH]; intros cur Hcur Hrest; simpl.
  - by intros ?%elem_of_nil.
  - apply Forall_cons in Hrest as [Hname Hrest].
    intros [-> | Hin]%elem_of_cons.
    + by apply walked_append_not_root.
    + eapply IH; [|done|done]. by apply walked_append.
Qed.

Lemma elem_of_removelast {A} (l : list A) x : x ∈ removelast l → x ∈ l.
Proof.
  induction l as [|y l IH]; simpl; [done|].
  destruct l as [|z l]; [by intros ?%elem_of_nil|].
  intros [-> | Hin]%elem_of_cons; [left|right; by apply IH].
Qed.

Lemma elem_of_concat {A} (ls : list (list A)) x :
  x ∈ concat ls ↔ ∃ l, l ∈ ls ∧ x ∈ l.
Proof.
  rewrite list_elem_of_In, in_concat. split; intros (l & Hl & Hx); exists l.
  - by rewrite !list_elem_of_In.
  - by rewrite <- !list_elem_of_In.
Qed.

Lemma filePathsOf_not_root entry f : f ∈ filePathsOf entry → f ≠ "/".
Proof.
  unfold filePathsOf. intros Hin.
  apply (prefixPaths_not_root (segmentsOf entry.1) "" f);
    [by left | apply segmentsOf_not_empty |].
  destruct (direntIsFile entry.2); [|by apply elem_of_nil in Hin].
  destruct (last (prefixPaths "" (segmentsOf entry.1))) as [g|] eqn:Hlast;
    [|by apply elem_of_nil in Hin].
  apply list_elem_of_singleton in Hin as ->. by eapply last_Some_elem_of.
Qed.

Lemma folderPathsOf_not_root entry f : f ∈ folderPathsOf entry → f ≠ "/".
Proof.
  unfold folderPathsOf. intros Hin.
  apply (prefixPaths_not_root (segmentsOf entry.1) "" f);
    [by left | apply segmentsOf_not_empty |].
  destruct (direntIsFile entry.2); [by apply elem_of_removelast|done].
Qed.

Section EntryFacts.

Variable hideRoot : bool.
Variable defaultDepth : Z.

Lemma addEntry_emits h seen fileList entry :
  ∃ seen' new,
    addEntry "/" hideRoot [] defaultDepth (h, (seen, fileList)) entry
    = (h, (seen', fileList ++ new))
    ∧ emits seen seen' new (filePathsOf entry) (folderPathsOf entry)
        (Z.of_nat (String.length entry.1) - 1 + (if hideRoot then 0 else defaultDepth)).
Proof.
  destruct entry as [filePath dirent]. unfold addEntry, filePathsOf, folderPathsOf.
  cbn [fst snd]. fold (segmentsOf filePath).
  destruct (last (segmentsOf filePath)) as [fileName|] eqn:Hlast.
  - cbn [isHiddenFile].
    destruct (walkSegments_emits hideRoot defaultDepth dirent
                (Z.of_nat (length (segmentsOf filePath)))
                (segmentsOf filePath) "" 0 seen fileList)
      as (seen' & new & Hrun & Hemits);
      [by left | apply segmentsOf_not_empty | lia |].
    exists seen', new. split; [by rewrite Hrun|].
    eapply emits_mono; [|done].
    pose proof (segmentsOf_length filePath). lia.
  - apply last_None in Hlast. rewrite Hlast. simpl.
    exists seen, []. rewrite app_nil_r. split; [done|].
    destruct (direntIsFile dirent); apply emits_nil.
Qed.

Lemma foldl_addEntry_emits entries h seen fileList bound :
  Forall (λ entry : string * option Dirent,
            Z.of_nat (String.length entry.1) - 1 + (if hideRoot then 0 else defaultDepth)
            <= bound) entries →
  ∃ seen' new,
    foldl (addEntry "/" hideRoot [] defaultDepth) (h, (seen, fileList)) entries
    = (h, (seen', fileList ++ new))
    ∧ emits seen seen' new
        (concat (filePathsOf <$> entries)) (concat (folderPathsOf <$> entries)) bound.
Proof.
  revert seen fileList. induction entries as [|entry entries IH]; intros seen fileList Hb.
  - exists seen, []. simpl. rewrite app_nil_r. split; [done|apply emits_nil].
  - apply Forall_cons in Hb as [Hentry Hb]. cbn [foldl].
    destruct (addEntry_emits h seen fileList entry) as (seen1 & new1 & -> & Hemits1).
    destruct (IH seen1 (fileList ++ new1) Hb) as (seen' & new & -> & Hemits).
    exists seen', (new1 ++ new). split; [by rewrite app_assoc|].
    rewrite !fmap_cons. cbn [concat].
    eapply emits_app; [|done]. by eapply emits_mono.
Qed.

End EntryFacts.

Lemma unsortedFileList_root hideRoot entries h :
  Forall (λ entry : string * option Dirent,
            Z.of_nat (String.length entry.1) <= MAX_SAFE_INTEGER) entries →
  ∃ seen' new,
    unsortedFileList "/" hideRoot entries [] h
    = ((if hideRoot then [] else [mkNode folder 0 0 "/" "/"]) ++ new, h)
    ∧ emits ∅ seen' new
        (concat (filePathsOf <$> entries)) (concat (folderPathsOf <$> entries))
        MAX_SAFE_INTEGER.
Proof.
  intros Hlen. unfold unsortedFileList. destruct hideRoot; simpl.
  - destruct (foldl_addEntry_emits true 0 entries h ∅ [] MAX_SAFE_INTEGER)
      as (seen' & new & -> & Hemits).
    { eapply Forall_impl; [exact Hlen|]. simpl. intros entry H. lia. }
    by exists seen', new.
  - destruct (foldl_addEntry_emits false 1 entries h ∅ [mkNode folder 0 0 "/" "/"]
                MAX_SAFE_INTEGER) as (seen' & new & -> & Hemits).
    { eapply Forall_impl; [exact Hlen|]. simpl. intros entry H. lia. }
    by exists seen', new.
Qed.

(** C4, as amended.  Take the entries of a FileMap whose keys have a
    length that a JS string can have, build the node list with root [/]
    and no hidden pattern, and filter it with nothing collapsed.  The
    filter returns the built list as it is.  In that list every folder
    node comes before every file node, and of two nodes of one kind the
    earlier has the smaller or an equal name.  Its file nodes are, one
    for one, the file entries that have a segment, each at its
    normalized path.  Its folder nodes have distinct paths, and these
    are: the synthetic root [/] when the root is not hidden, and the
    folder paths of the entries, that is the proper ancestors of every
    entry and the whole path of every entry that is not a file.  (So an
    ancestor gets a node without being an entry, and an entry without a
    segment gets none.) *)
Theorem buildFileList_census {collation : Collation} hideRoot
    (entries : list (string * option Dirent)) (h : RegExpHeap) :
  consistentComparator localeCompare →
  Forall (λ entry : string * option Dirent,
            Z.of_nat (String.length entry.1) <= MAX_SAFE_INTEGER) entries →
  filteredFileList (buildFileList "/" hideRoot entries [] h).1 ∅
  = (buildFileList "/" hideRoot entries [] h).1
  ∧ (∀ pre a mid b post,
       (buildFileList "/" hideRoot entries [] h).1 = pre ++ a :: mid ++ b :: post →
       (kind a = file → kind b = file)
       ∧ (kind a = kind b → localeCompare (name a) (name b) <= 0))
  ∧ (fullPath <$> filter (λ n, kind n = file) (buildFileList "/" hideRoot entries [] h).1)
    ≡ₚ concat (filePathsOf <$> entries)
  ∧ NoDup (fullPath <$> filter (λ n, kind n = folder)
                          (buildFileList "/" hideRoot entries [] h).1)
  ∧ (∀ f, f ∈ (fullPath <$> filter (λ n, kind n = folder)
                              (buildFileList "/" hideRoot entries [] h).1)
          ↔ (hideRoot = false ∧ f = "/") ∨ f ∈ concat (folderPathsOf <$> entries))
  ∧ ("/" ∈ (fullPath <$> (buildFileList "/" hideRoot entries [] h).1) ↔ hideRoot = false).
Proof.
  intros Hcmp Hlen.
  destruct (unsortedFileList_root hideRoot entries h Hlen)
    as (seen' & new & Hraw & Hfiles & Hnodup & Hin & _ & Hdepth).
  assert (Hroot : ∀ f, f ∈ concat (folderPathsOf <$> entries) → f ≠ "/").
  { intros f (paths & (entry & -> & _)%list_elem_of_fmap & Hf)%elem_of_concat.
    by eapply folderPathsOf_not_root. }
  assert (Hnew : ∀ f, f ∈ (fullPath <$> filter (λ n, kind n = folder) new)
                      ↔ f ∈ concat (folderPathsOf <$> entries)).
  { intros f. rewrite Hin. split; [by intros [_ ?]|]. intros Hf. split; [|done].
    apply not_elem_of_empty. }
  assert (Hperm : (buildFileList "/" hideRoot entries [] h).1
                  ≡ₚ (if hideRoot then [] else [mkNode folder 0 0 "/" "/"]) ++ new).
  { unfold buildFileList. rewrite Hraw. apply sortNodes_Permutation. }
  split_and!.
  - apply filteredFileList_empty. eapply Permutation_Forall; [symmetry; exact Hperm|].
    apply Forall_app. split; [|done].
    destruct hideRoot; repeat constructor. simpl. discriminate.
  - intros pre a mid b post Hsplit. apply compareNodes_le.
    eapply sortNodes_ordered; [by apply compareNodes_consistent|exact Hsplit].
  - rewrite Hperm, filter_app, fmap_app, Hfiles. by destruct hideRoot.
  - rewrite Hperm, filter_app, fmap_app. apply NoDup_app. split_and!; [| |done].
    + destruct hideRoot; simpl; [constructor|apply NoDup_singleton].
    + intros f Hf Hf'. apply Hnew, Hroot in Hf'.
      destruct hideRoot; simpl in Hf; [by apply elem_of_nil in Hf|].
      by apply list_elem_of_singleton in Hf.
  - intros f. rewrite Hperm, filter_app, fmap_app, elem_of_app, Hnew.
    destruct hideRoot; simpl.
    + rewrite elem_of_nil. split; [intros [[]|?]; by right|].
      intros [[? _]|?]; [done|by right].
    + rewrite list_elem_of_singleton. split; [intros [->|?]; [by left|by right]|].
      intros [[_ ->]|?]; [by left|by right].
  - rewrite Hperm, fmap_app, elem_of_app.
    assert ("/" ∉ fullPath <$> new) as Hnone.
    { intros (n & Hn & Hmem)%list_elem_of_fmap.
      destruct (kind n) eqn:Hkind.
      - assert ("/" ∈ concat (filePathsOf <$> entries)) as Hfile.
        { rewrite <- Hfiles, Hn. apply list_elem_of_fmap_2. by apply list_elem_of_filter. }
        apply elem_of_concat in Hfile
          as (paths & (entry & -> & _)%list_elem_of_fmap & Hfile).
        by eapply filePathsOf_not_root.
      - apply (Hroot "/"); [|done]. apply Hnew. rewrite Hn.
        apply list_elem_of_fmap_2. by apply list_elem_of_filter. }
    destruct hideRoot; simpl.
    + rewrite elem_of_nil. split; [by intros [[]|?]|done].
    + split; [done|]. intros _. left. left.
Qed.

(** The census of a map with [/src], [/src/b.ts] and [/src/a.ts]. *)
Lemma buildFileList_census_witness :
  filteredFileList (@buildFileList Example.collation "/" false Example.tree [] ∅).1 ∅
  = (@buildFileList Example.collation "/" false Example.tree [] ∅).1
  ∧ (fullPath <$> filter (λ n, kind n = file)
                    (@buildFileList Example.collation "/" false Example.tree [] ∅).1)
    ≡ₚ ["/src/b.ts"; "/src/a.ts"]
  ∧ (∀ f, f ∈ (fullPath <$> filter (λ n, kind n = folder)
                              (@buildFileList Example.collation "/" false Example.tree [] ∅).1)
          ↔ (false = false ∧ f = "/") ∨ f ∈ ["/src"; "/src"; "/src"]).
Proof.
  destruct (@buildFileList_census Example.collation false Example.tree ∅)
    as (Hfilter & _ & Hfiles & _ & Hfolders & _).
  - exact compareCodeUnits_consistent.
  - repeat constructor; vm_compute; discriminate.
  - split; [exact Hfilter|]. split; [exact Hfiles | exact Hfolders].
Defined.

(** C4 as stated fails: a map that holds the one file [/src/a.ts] gives
    three nodes, the root, the folder [/src] and the file, and not one
    node for its entry plus the root. *)
Lemma ancestor_folder_gets_a_node :
  ¬ (∀ entries : list (string * option Dirent),
       length (filteredFileList (@buildFileList Example.collation "/" false entries [] ∅).1 ∅)
       = S (length entries)).
Proof.
  intros H. specialize (H Example.loneFile). vm_compute in H. discriminate H.
Qed.

(** * Further properties of the store *)

Lemma stripTrailingSlashes_idempotent s :
  Str.stripTrailingSlashes (Str.stripTrailingSlashes s) = Str.stripTrailingSlashes s.
Proof.
  induction s as [|c s IH]; [done|]. cbn [Str.stripTrailingSlashes].
  destruct (Str.isSlash c && Str.isEmpty (Str.stripTrailingSlashes s)) eqn:Hc; [done|].
  cbn [Str.stripTrailingSlashes]. by rewrite IH, Hc.
Qed.

Lemma stripTrailingSlashes_app_slash s :
  Str.stripTrailingSlashes (s +:+ "/") = Str.stripTrailingSlashes s.
Proof.
  induction s as [|c s IH]; [done|].
  change (String c s +:+ "/") with (String c (s +:+ "/")).
  cbn [Str.stripTrailingSlashes]. by rewrite IH.
Qed.

Lemma stripTrailingSlashes_no_trailing_slash s t :
  Str.stripTrailingSlashes s ≠ t +:+ "/".
Proof.
  revert t. induction s as [|c s IH]; intros t.
  - simpl. by destruct t.
  - cbn [Str.stripTrailingSlashes].
    destruct (Str.isSlash c && Str.isEmpty (Str.stripTrailingSlashes s)) eqn:Hc.
    + by destruct t.
    + destruct t as [|c' t]; simpl.
      * intros [= -> Hr]. rewrite Hr in Hc. done.
      * intros [= _ Hr]. by apply (IH t).
Qed.

Lemma fileEntryCount_insert_fresh (m : gmap string Dirent) k v :
  m !! k = None →
  fileEntryCount (<[k := v]> m)
  = fileEntryCount m + (if bool_decide (type v = TFile) then 1 else 0).
Proof.
  intros Hk. unfold fileEntryCount.
  rewrite (map_to_list_insert m k v Hk), filter_cons. simpl.
  case_bool_decide; [rewrite decide_True by done|rewrite decide_False by done];
    simpl length; lia.
Qed.

Lemma fileEntryCount_split (m : gmap string Dirent) k :
  fileEntryCount m = fileEntryCount (delete k m) + (if isFileAt m k then 1 else 0).
Proof.
  unfold isFileAt. destruct (m !! k) as [d|] eqn:Hk.
  - rewrite <- (insert_delete_id m k d Hk) at 1.
    by rewrite fileEntryCount_insert_fresh by apply lookup_delete_eq.
  - rewrite (delete_id m k Hk). lia.
Qed.

Lemma fileEntryCount_insert_file (m : gmap string Dirent) k v :
  type v = TFile →
  fileEntryCount (<[k := v]> m) = fileEntryCount m + (if isFileAt m k then 0 else 1).
Proof.
  intros Hv. rewrite <- (insert_delete_eq m k v).
  rewrite fileEntryCount_insert_fresh by apply lookup_delete_eq.
  rewrite (fileEntryCount_split m k), bool_decide_eq_true_2 by done.
  destruct (isFileAt m k); lia.
Qed.

Section WatcherMore.

Context {platform : Platform}.

Lemma processWatchEvents_app evs1 evs2 st :
  processWatchEvents st (evs1 ++ evs2)
  = match processWatchEvents st evs1 with
    | Normal st1 => processWatchEvents st1 evs2
    | Throw err => Throw err
    end.
Proof.
  revert st. induction evs1 as [|e evs1 IH]; intros st; simpl; [done|].
  destruct (processEvent st e); [apply IH|done].
Qed.

(** X1.  Watcher events never touch the locks or the modification
    snapshots: after a batch every path is locked exactly as before and
    [getFileModifications] is as before, whatever the batch removed or
    overwrote. *)
Theorem processEventBuffer_keeps_locks_and_modifications st events :
  ∃ st', processEventBuffer st events = Normal st'
    ∧ (∀ p, isFileLocked st' p = isFileLocked st p)
    ∧ getFileModifications st' = getFileModifications st
    ∧ modifiedFiles st' = modifiedFiles st.
Proof.
  unfold processEventBuffer.
  destruct (processWatchEvents_spec (concat events) st) as (st' & Hrun & _ & _ & Hl & Hm).
  exists st'. split; [done|]. unfold isFileLocked, getFileModifications.
  rewrite Hl, Hm. done.
Qed.

(** X2.  What [getFile] returns after a file addition or a change: the
    empty string for a payload classed as binary and for a missing or
    empty payload, the decoded text for a payload that the decoder
    accepts; undefined after a directory addition, a file removal or a
    directory removal of the same path. *)
Theorem getFile_after_event st p buffer :
  (∀ ty, ty = add_file ∨ ty = change →
     ∃ st', processEvent st (mkEvent ty p buffer) = Normal st'
       ∧ (isBinaryFile buffer = true → getFile st' (Str.stripTrailingSlashes p) = Some "")
       ∧ (buffer = None ∨ buffer = Some [] →
          getFile st' (Str.stripTrailingSlashes p) = Some "")
       ∧ (∀ b s, buffer = Some b → b ≠ [] → isBinaryFile buffer = false →
                 utf8_decode b = Normal s →
          getFile st' (Str.stripTrailingSlashes p) = Some s))
  ∧ (∀ ty, ty = add_dir ∨ ty = remove_file ∨ ty = remove_dir →
       ∃ st', processEvent st (mkEvent ty p buffer) = Normal st'
         ∧ getFile st' (Str.stripTrailingSlashes p) = None).
Proof.
  split.
  - intros ty Hty.
    destruct (processEvent_spec st (mkEvent ty p buffer)) as (st' & Hrun & Hf & _).
    exists st'. split; [done|].
    assert (files st' !! Str.stripTrailingSlashes p = Some (storedFile (mkEvent ty p buffer)))
      as Hentry.
    { rewrite Hf. unfold effectOn. simpl. destruct Hty as [-> | ->]; by rewrite decide_True. }
    unfold getFile. rewrite Hentry. unfold storedFile. cbn [ev_buffer fileDirent type content].
    split_and!.
    + by intros ->.
    + intros Hempty. destruct (isBinaryFile buffer); [done|].
      by destruct Hempty as [-> | ->].
    + intros b s -> Hb -> Hdec. destruct b as [|x b]; [done|].
      cbn [decodeFileContent]. by rewrite Hdec.
  - intros ty Hty.
    destruct (processEvent_spec st (mkEvent ty p buffer)) as (st' & Hrun & Hf & _).
    exists st'. split; [done|]. unfold getFile. rewrite Hf. unfold effectOn. simpl.
    destruct Hty as [-> | [-> | ->]]; rewrite ?decide_True, ?startsWith_refl by done; done.
Qed.

(** X3.  Trailing slashes of an event path do not count: sanitizing is
    idempotent, its result never ends with a slash, a path with one more
    slash at its end sanitizes to the same key, and an event acts the
    same with or without that slash. *)
Theorem trailing_slashes_are_ignored st e p :
  Str.stripTrailingSlashes (Str.stripTrailingSlashes p) = Str.stripTrailingSlashes p
  ∧ (∀ t, Str.stripTrailingSlashes p ≠ t +:+ "/")
  ∧ Str.stripTrailingSlashes (p +:+ "/") = Str.stripTrailingSlashes p
  ∧ processEvent st (withPath e (p +:+ "/")) = processEvent st (withPath e p).
Proof.
  split_and!.
  - apply stripTrailingSlashes_idempotent.
  - apply stripTrailingSlashes_no_trailing_slash.
  - apply stripTrailingSlashes_app_slash.
  - unfold processEvent, withPath. cbn [ev_path ev_type ev_buffer].
    by rewrite stripTrailingSlashes_app_slash.
Qed.

(** X4.  Events for the root: a path made of slashes only sanitizes to
    the empty string, so a directory removal of it empties the whole map
    and a directory addition of it stores a folder under the empty key. *)
Theorem root_events_use_the_empty_key st p buffer :
  Str.stripTrailingSlashes p = "" →
  (∃ st', processEvent st (mkEvent remove_dir p buffer) = Normal st' ∧ files st' = ∅)
  ∧ (∃ st', processEvent st (mkEvent add_dir p buffer) = Normal st'
       ∧ files st' !! "" = Some folderDirent
       ∧ ∀ k, k ≠ "" → files st' !! k = files st !! k).
Proof.
  intros Hp. split.
  - destruct (processEvent_spec st (mkEvent remove_dir p buffer)) as (st' & Hrun & Hf & _).
    exists st'. split; [done|]. apply map_eq. intros k.
    rewrite Hf, lookup_empty. unfold effectOn. simpl. rewrite Hp. done.
  - destruct (processEvent_spec st (mkEvent add_dir p buffer)) as (st' & Hrun & Hf & _).
    exists st'. split; [done|]. split.
    + rewrite Hf. unfold effectOn. simpl. rewrite Hp. done.
    + intros k Hk. rewrite Hf. unfold effectOn. simpl. rewrite Hp.
      by rewrite decide_False.
Qed.

(** X5.  Batches compose: processing two batches one after the other is
    processing their concatenation, and how the events are grouped into
    the arrays of a batch does not matter. *)
Theorem processEventBuffer_composes st events1 events2 :
  (∃ st1 st2,
     processEventBuffer st events1 = Normal st1
     ∧ processEventBuffer st1 events2 = Normal st2
     ∧ processEventBuffer st (events1 ++ events2) = Normal st2)
  ∧ processEventBuffer st [concat events1] = processEventBuffer st events1.
Proof.
  unfold processEventBuffer. split.
  - destruct (processWatchEvents_spec (concat events1) st) as (st1 & Hrun1 & _).
    destruct (processWatchEvents_spec (concat events2) st1) as (st2 & Hrun2 & _).
    exists st1, st2. split_and!; try done.
    by rewrite concat_app, processWatchEvents_app, Hrun1.
  - simpl. by rewrite app_nil_r.
Qed.

(** X6.  How far [filesCount] is from the number of file entries of the
    map changes with single events as follows: a file addition leaves
    the distance alone when the path is not yet a file and adds one when
    it is; a file removal leaves it alone when the path is a file and
    takes one off when it is not; a change takes one off when it creates
    the file and leaves it alone otherwise. *)
Theorem filesCount_drift st p buffer :
  (∃ st', processEvent st (mkEvent add_file p buffer) = Normal st'
     ∧ filesCount st' - fileEntryCount (files st')
       = filesCount st - fileEntryCount (files st)
         + (if isFileAt (files st) (Str.stripTrailingSlashes p) then 1 else 0))
  ∧ (∃ st', processEvent st (mkEvent remove_file p buffer) = Normal st'
       ∧ filesCount st' - fileEntryCount (files st')
         = filesCount st - fileEntryCount (files st)
           - (if isFileAt (files st) (Str.stripTrailingSlashes p) then 0 else 1))
  ∧ (∃ st', processEvent st (mkEvent change p buffer) = Normal st'
       ∧ filesCount st' - fileEntryCount (files st')
         = filesCount st - fileEntryCount (files st)
           - (if isFileAt (files st) (Str.stripTrailingSlashes p) then 0 else 1)).
Proof.
  assert (∀ ty, ty = add_file ∨ ty = change →
            ∃ st', processEvent st (mkEvent ty p buffer) = Normal st'
              ∧ size st' = size st + sizeDelta (mkEvent ty p buffer)
              ∧ fileEntryCount (files st')
                = fileEntryCount (files st)
                  + (if isFileAt (files st) (Str.stripTrailingSlashes p) then 0 else 1))
    as Hadd.
  { intros ty Hty.
    destruct (processEvent_spec st (mkEvent ty p buffer)) as (st' & Hrun & Hf & Hs & _).
    exists st'. split; [done|]. split; [done|].
    assert (files st' = <[Str.stripTrailingSlashes p := storedFile (mkEvent ty p buffer)]>
                          (files st)) as ->.
    { apply map_eq. intros k. rewrite Hf. unfold effectOn. simpl.
      destruct Hty as [-> | ->]; case_decide; subst;
        by rewrite ?lookup_insert_eq, ?lookup_insert_ne by done. }
    by apply fileEntryCount_insert_file. }
  split_and!.
  - destruct (Hadd add_file) as (st' & Hrun & Hs & Hc); [by left|].
    exists st'. split; [done|]. unfold filesCount. rewrite Hs, Hc. unfold sizeDelta. simpl.
    destruct (isFileAt _ _); lia.
  - destruct (processEvent_spec st (mkEvent remove_file p buffer))
      as (st' & Hrun & Hf & Hs & _).
    exists st'. split; [done|].
    assert (files st' = delete (Str.stripTrailingSlashes p) (files st)) as ->.
    { apply map_eq. intros k. rewrite Hf. unfold effectOn. simpl.
      case_decide; subst; by rewrite ?lookup_delete_eq, ?lookup_delete_ne by done. }
    unfold filesCount. rewrite Hs.
    rewrite (fileEntryCount_split (files st) (Str.stripTrailingSlashes p)).
    unfold sizeDelta. simpl. destruct (isFileAt _ _); lia.
  - destruct (Hadd change) as (st' & Hrun & Hs & Hc); [by right|].
    exists st'. split; [done|]. unfold filesCount. rewrite Hs, Hc. unfold sizeDelta. simpl.
    destruct (isFileAt _ _); lia.
Qed.

End WatcherMore.

(** The payload [hello] is stored as text; the payload with a NUL byte
    and the missing payload give the empty string. *)
Lemma getFile_after_event_witness :
  (∃ st', @processEvent Example.platform emptyStore
            (mkEvent change "/src/a.ts/" (Example.bytes "hello")) = Normal st'
     ∧ getFile st' "/src/a.ts" = Some "hello")
  ∧ (∃ st', @processEvent Example.platform emptyStore
              (mkEvent add_file "/src/a.ts/" None) = Normal st'
       ∧ getFile st' "/src/a.ts" = Some "")
  ∧ (∃ st', @processEvent Example.platform Example.loaded
              (mkEvent remove_dir Example.aPath None) = Normal st'
       ∧ getFile st' Example.aPath = None).
Proof.
  split; [|split].
  - destruct (@getFile_after_event Example.platform emptyStore "/src/a.ts/"
                (Example.bytes "hello")) as [Hfile _].
    destruct (Hfile change) as (st' & Hrun & _ & _ & Htext); [right; reflexivity|].
    exists st'. split; [exact Hrun|].
    apply (Htext (list_byte_of_string "hello") "hello");
      [reflexivity | discriminate | reflexivity | reflexivity].
  - destruct (@getFile_after_event Example.platform emptyStore "/src/a.ts/" None)
      as [Hfile _].
    destruct (Hfile add_file) as (st' & Hrun & _ & Hempty & _); [left; reflexivity|].
    exists st'. split; [exact Hrun|]. apply Hempty. left. reflexivity.
  - destruct (@getFile_after_event Example.platform Example.loaded Example.aPath None)
      as [_ Hgone].
    destruct (Hgone remove_dir) as (st' & Hrun & Hnone); [right; right; reflexivity|].
    exists st'. split; [exact Hrun | exact Hnone].
Defined.

(** A directory removal of [//] empties the loaded store. *)
Lemma root_events_use_the_empty_key_witness :
  (∃ st', @processEvent Example.platform Example.loaded (mkEvent remove_dir "//" None)
          = Normal st' ∧ files st' = ∅)
  ∧ (∃ st', @processEvent Example.platform Example.loaded (mkEvent add_dir "/" None)
            = Normal st' ∧ files st' !! "" = Some folderDirent).
Proof.
  split.
  - destruct (@root_events_use_the_empty_key Example.platform Example.loaded "//" None)
      as [Hremove _]; [reflexivity|]. exact Hremove.
  - destruct (@root_events_use_the_empty_key Example.platform Example.loaded "/" None)
      as [_ (st' & Hrun & Hroot & _)]; [reflexivity|].
    exists st'. split; [exact Hrun | exact Hroot].
Defined.

(** ** Locks and saves *)

Lemma isFileLocked_toggleFileLock st p q :
  isFileLocked (toggleFileLock p st) q
  = if decide (q = p) then negb (isFileLocked st p) else isFileLocked st q.
Proof.
  unfold isFileLocked, toggleFileLock. simpl.
  case_decide as Hq; [subst; by rewrite lookup_insert_eq|by rewrite lookup_insert_ne].
Qed.

(** X7.  [toggleFileLock] flips the lock of its path and of no other,
    whether or not the path is in the map; toggling twice gives back
    every lock; the map, the counter and the snapshots are not touched. *)
Theorem toggleFileLock_flips st p :
  (∀ q, isFileLocked (toggleFileLock p st) q
        = if decide (q = p) then negb (isFileLocked st p) else isFileLocked st q)
  ∧ (∀ q, isFileLocked (toggleFileLock p (toggleFileLock p st)) q = isFileLocked st q)
  ∧ files (toggleFileLock p st) = files st
  ∧ filesCount (toggleFileLock p st) = filesCount st
  ∧ modifiedFiles (toggleFileLock p st) = modifiedFiles st.
Proof.
  split_and!; try done.
  - intros q. apply isFileLocked_toggleFileLock.
  - intros q. rewrite !isFileLocked_toggleFileLock.
    case_decide; [subst; rewrite decide_True by done|done].
    apply negb_involutive.
Qed.



Section SaveMore.

Context {api : SandboxApi}.

(** X9.  After a successful save [getFile] returns the saved content;
    the path is a non-binary file, every other entry, the locks and
    [filesCount] are as before, and the sandbox is in the state that the
    write of the content at the relative path left.  The number of file
    entries grows by one when the path was not a file, so [filesCount]
    falls behind by one on such a save. *)
Theorem saveFile_then_getFile (w w1 : World) p c :
  saveFile p c w = (Normal tt, w1) →
  getFile (store w1) p = Some c
  ∧ (∀ q, files (store w1) !! q
          = if decide (q = p) then Some (mkDirent TFile (Some c) (Some false))
            else files (store w) !! q)
  ∧ lockedFiles (store w1) = lockedFiles (store w)
  ∧ filesCount (store w1) = filesCount (store w)
  ∧ fileEntryCount (files (store w1))
    = fileEntryCount (files (store w)) + (if isFileAt (files (store w)) p then 0 else 1)
  ∧ (∃ wc, webcontainer w = Normal wc
       ∧ fs_writeFile (nodePath_relative (workdir wc) p) c (sandbox w)
         = (Normal tt, sandbox w1)).
Proof.
  rewrite saveFile_unfold. destruct (webcontainer w) as [wc|e] eqn:Hwc; [|done]. simpl.
  destruct (fs_writeFile _ _ _) as [[[]|e] fs'] eqn:Hwrite; [|done].
  intros [= <-]. simpl. split_and!; try done.
  - unfold getFile. simpl. by rewrite lookup_insert_eq.
  - intros q. case_decide; [subst; by rewrite lookup_insert_eq|by rewrite lookup_insert_ne].
  - by apply fileEntryCount_insert_file.
  - by exists wc.
Qed.

End SaveMore.

Lemma saveFile_then_getFile_witness :
  ∃ w1, @saveFile Example.sandbox "/home/project/new.ts" "x"
          (Example.world Example.sandbox [] Example.loaded) = (Normal tt, w1)
    ∧ getFile (store w1) "/home/project/new.ts" = Some "x"
    ∧ filesCount (store w1) = 1
    ∧ fileEntryCount (files (store w1)) = 2.
Proof.
  pose (w0 := Example.world Example.sandbox [] Example.loaded).
  pose (w1 := (@saveFile Example.sandbox "/home/project/new.ts" "x" w0).2).
  assert (@saveFile Example.sandbox "/home/project/new.ts" "x" w0 = (Normal tt, w1)) as Hrun
    by (vm_compute; reflexivity).
  exists w1. split; [exact Hrun|].
  destruct (@saveFile_then_getFile Example.sandbox w0 w1 "/home/project/new.ts" "x" Hrun)
    as (Hget & _ & _ & Hcount & Hentries & _).
  split; [exact Hget|]. split; [rewrite Hcount; reflexivity|].
  rewrite Hentries. vm_compute. reflexivity.
Defined.

(** * Further properties of the tree *)

(** ** The collapsed set *)

Lemma setsAreEqual_true (a b : gset string) : setsAreEqual a b = true → a = b.
Proof.
  unfold setsAreEqual.
  destruct (Nat.eqb (stdpp.base.size a) (stdpp.base.size b)) eqn:Hsize; [|done].
  simpl. intros Hall. apply Nat.eqb_eq in Hsize.
  apply set_subseteq_size_eq; [|lia].
  intros x Hx. rewrite forallb_forall in Hall.
  specialize (Hall x). rewrite bool_decide_eq_true in Hall.
  apply Hall. apply list_elem_of_In. by apply elem_of_elements.
Qed.

(** X10.  [setsAreEqual] decides equality of the two sets: it answers
    true exactly when they hold the same values. *)
Theorem setsAreEqual_decides (a b : gset string) : setsAreEqual a b = true ↔ a = b.
Proof.
  split; [apply setsAreEqual_true|].
  intros ->. unfold setsAreEqual. rewrite Nat.eqb_refl. simpl. apply forallb_forall.
  intros x Hx. apply bool_decide_eq_true.
  apply elem_of_elements. by apply list_elem_of_In.
Qed.

Lemma foldl_keep_collapsed (folders : list Node) (cur acc : gset string) p :
  p ∈ foldl (λ acc folder,
               if bool_decide (fullPath folder ∈ cur) then {[fullPath folder]} ∪ acc else acc)
            acc folders
  ↔ p ∈ acc ∨ (p ∈ cur ∧ p ∈ (fullPath <$> folders)).
Proof.
  revert acc. induction folders as [|f folders IH]; intros acc; cbn [foldl].
  - rewrite fmap_nil, elem_of_nil. tauto.
  - rewrite IH, fmap_cons, elem_of_cons. case_bool_decide as Hf.
    + rewrite elem_of_union, elem_of_singleton. split; [|intros [?|[? [->|?]]]; tauto].
      intros [[->|?]|[? ?]]; tauto.
    + split; [tauto|]. intros [?|[? [->|?]]]; tauto.
Qed.

Lemma reconcileCollapsed_elem_of collapsed folders (cur : gset string) p :
  p ∈ reconcileCollapsed collapsed folders cur
  ↔ p ∈ (fullPath <$> folders)
    ∧ (if (0 <? length collapsed)%nat then p ∈ collapsed else p ∈ cur).
Proof.
  unfold reconcileCollapsed. destruct (0 <? length collapsed)%nat.
  - set (new := list_to_set _).
    assert (p ∈ new ↔ p ∈ (fullPath <$> folders) ∧ p ∈ collapsed) as Hnew.
    { unfold new. rewrite elem_of_list_to_set, list_elem_of_filter. tauto. }
    destruct (setsAreEqual new cur) eqn:Heq; simpl; [|done].
    apply setsAreEqual_true in Heq. by rewrite <- Heq.
  - set (new := foldl _ _ _).
    assert (p ∈ new ↔ p ∈ (fullPath <$> folders) ∧ p ∈ cur) as Hnew.
    { unfold new. rewrite foldl_keep_collapsed, elem_of_empty. tauto. }
    destruct (setsAreEqual new cur) eqn:Heq; [|done].
    apply setsAreEqual_true in Heq. by rewrite Heq in Hnew.
Qed.

Lemma toggleCollapseState_elem_of p (s : gset string) q :
  q ∈ toggleCollapseState p s ↔ (if decide (q = p) then q ∉ s else q ∈ s).
Proof.
  unfold toggleCollapseState. case_bool_decide as Hp.
  - rewrite elem_of_difference, elem_of_singleton.
    case_decide; [subst; tauto|tauto].
  - rewrite elem_of_union, elem_of_singleton.
    case_decide; [subst; tauto|tauto].
Qed.

(** X11.  After the reconciling effect the collapsed set holds exactly:
    with a non-empty [collapsed] prop, the paths of the prop that are
    folders at hand, whatever was toggled before; with an empty prop, the
    paths collapsed before that are still folders at hand. *)
Theorem reconcileCollapsed_result collapsed folders (collapsedFolders : gset string) :
  (∀ p, p ∈ reconcileCollapsed collapsed folders collapsedFolders
        ↔ p ∈ (fullPath <$> folders)
          ∧ (if (0 <? length collapsed)%nat then p ∈ collapsed else p ∈ collapsedFolders))
  ∧ (collapsed = [] → reconcileCollapsed collapsed folders collapsedFolders ⊆ collapsedFolders)
  ∧ (collapsed ≠ [] →
     ∀ p, reconcileCollapsed collapsed folders (toggleCollapseState p collapsedFolders)
          = reconcileCollapsed collapsed folders collapsedFolders).
Proof.
  split_and!.
  - intros p. apply reconcileCollapsed_elem_of.
  - intros -> p. rewrite reconcileCollapsed_elem_of. simpl. tauto.
  - intros Hne p. apply set_eq. intros q. rewrite !reconcileCollapsed_elem_of.
    destruct collapsed; [done|]. simpl. tauto.
Qed.

(** X12.  The reconciling effect reaches a fixed point at once: run on
    its own result it returns that result, so the state settles after one
    update; and the initial state computed from the props is already
    such a fixed point. *)
Theorem reconcileCollapsed_settles collapsed fileList (collapsedFolders : gset string) :
  reconcileCollapsed collapsed (foldersOf fileList)
    (reconcileCollapsed collapsed (foldersOf fileList) collapsedFolders)
  = reconcileCollapsed collapsed (foldersOf fileList) collapsedFolders
  ∧ reconcileCollapsed collapsed (foldersOf fileList)
      (initialCollapsedFolders collapsed fileList)
    = initialCollapsedFolders collapsed fileList.
Proof.
  split.
  - apply set_eq. intros p. rewrite !reconcileCollapsed_elem_of.
    destruct collapsed; simpl; rewrite !reconcileCollapsed_elem_of; simpl; tauto.
  - apply set_eq. intros p. rewrite reconcileCollapsed_elem_of.
    unfold initialCollapsedFolders, foldersOf.
    destruct (0 <? length collapsed)%nat.
    + rewrite elem_of_list_to_set, list_elem_of_filter. tauto.
    + rewrite elem_of_empty. tauto.
Qed.

(** X13.  [toggleCollapseState] flips the membership of its path and of
    no other, and toggling twice gives back the set. *)
Theorem toggleCollapseState_flips p (prevSet : gset string) :
  (∀ q, q ∈ toggleCollapseState p prevSet
        ↔ (if decide (q = p) then q ∉ prevSet else q ∈ prevSet))
  ∧ toggleCollapseState p (toggleCollapseState p prevSet) = prevSet.
Proof.
  split; [intros q; apply toggleCollapseState_elem_of|].
  apply set_eq. intros q. rewrite toggleCollapseState_elem_of.
  destruct (decide (q = p)) as [->|Hq].
  - rewrite toggleCollapseState_elem_of, decide_True by done.
    destruct (decide (p ∈ prevSet)); tauto.
  - by rewrite toggleCollapseState_elem_of, decide_False by done.
Qed.

(** The effect on the nodes of the collapse example: with the prop
    [A; gone] the set becomes [{A}] whatever was toggled, and with no
    prop a stale path is pruned. *)
Lemma reconcileCollapsed_result_witness :
  reconcileCollapsed ["A"; "gone"] (foldersOf Example.nodes)
    (toggleCollapseState "C" ∅)
  = reconcileCollapsed ["A"; "gone"] (foldersOf Example.nodes) ∅
  ∧ reconcileCollapsed [] (foldersOf Example.nodes) {[ "A"; "gone" ]} ⊆ {[ "A"; "gone" ]}.
Proof.
  destruct (reconcileCollapsed_result ["A"; "gone"] (foldersOf Example.nodes) ∅)
    as (_ & _ & Hprop).
  destruct (reconcileCollapsed_result [] (foldersOf Example.nodes) {[ "A"; "gone" ]})
    as (_ & Hprune & _).
  split; [apply Hprop; discriminate | apply Hprune; reflexivity].
Defined.

(** ** The visibility filter *)

Lemma foldl_filterStep_acc (c : gset string) l d acc :
  foldl (filterStep c) (d, acc) l
  = ((foldl (filterStep c) (d, []) l).1, acc ++ (foldl (filterStep c) (d, []) l).2).
Proof.
  revert d acc. induction l as [|n l IH]; intros d acc; cbn [foldl].
  - simpl. by rewrite app_nil_r.
  - assert (∀ acc', filterStep c (d, acc') n
                    = ((filterStep c (d, []) n).1, acc' ++ (filterStep c (d, []) n).2))
      as Hstep.
    { intros acc'. unfold filterStep.
      match goal with |- context [?a <? depth n] => destruct (a <? depth n) end;
        simpl; [by rewrite app_nil_r|done]. }
    rewrite (Hstep acc). destruct (filterStep c (d, []) n) as [d' l'] eqn:Hn. simpl.
    rewrite (IH d' (acc ++ l')), (IH d' l'). simpl. by rewrite app_assoc.
Qed.

Lemma filterStep_sublist (c : gset string) d n :
  (filterStep c (d, []) n).2 = [] ∨ (filterStep c (d, []) n).2 = [n].
Proof.
  unfold filterStep.
  match goal with |- context [?a <? depth n] => destruct (a <? depth n) end; simpl; auto.
Qed.

Lemma foldl_filterStep_sublist (c : gset string) l d :
  sublist (foldl (filterStep c) (d, []) l).2 l.
Proof.
  revert d. induction l as [|n l IH]; intros d; cbn [foldl]; [constructor|].
  pose proof (filterStep_sublist c d n) as H.
  destruct (filterStep c (d, []) n) as [d' l'] eqn:Hn.
  rewrite foldl_filterStep_acc. simpl in *.
  destruct H as [H|H]; subst l'.
  - simpl. apply sublist_cons. apply IH.
  - simpl. apply sublist_skip. apply IH.
Qed.

Lemma foldl_filterStep_uncollapsed (c : gset string) l acc :
  Forall (λ n, (fullPath n ∉ c) ∧ depth n <= MAX_SAFE_INTEGER) l →
  foldl (filterStep c) (MAX_SAFE_INTEGER, acc) l = (MAX_SAFE_INTEGER, acc ++ l).
Proof.
  revert acc. induction l as [|n l IH]; intros acc Hl; cbn [foldl].
  - by rewrite app_nil_r.
  - apply Forall_cons in Hl as [[Hn Hd] Hl].
    assert (filterStep c (MAX_SAFE_INTEGER, acc) n = (MAX_SAFE_INTEGER, acc ++ [n])) as ->.
    { unfold filterStep. rewrite bool_decide_eq_false_2 by done.
      destruct (MAX_SAFE_INTEGER =? depth n); by rewrite (proj2 (Z.ltb_ge _ _)). }
    rewrite IH by done. by rewrite <- app_assoc.
Qed.

Lemma filterStep_collapsed (c : gset string) acc f :
  fullPath f ∈ c → depth f <= MAX_SAFE_INTEGER →
  filterStep c (MAX_SAFE_INTEGER, acc) f = (depth f, acc ++ [f]).
Proof.
  intros Hf Hd. unfold filterStep. rewrite bool_decide_eq_true_2 by done.
  destruct (MAX_SAFE_INTEGER =? depth f); rewrite Z.min_r by done; by rewrite Z.ltb_irrefl.
Qed.

Lemma foldl_filterStep_below (c : gset string) d mid acc :
  Forall (λ n, depth n ≠ d ∧ fullPath n ∉ c) mid →
  foldl (filterStep c) (d, acc) mid = (d, acc ++ filter (λ n, depth n < d) mid).
Proof.
  revert acc. induction mid as [|n mid IH]; intros acc Hmid; cbn [foldl].
  - by rewrite app_nil_r.
  - apply Forall_cons in Hmid as [[Hd Hn] Hmid].
    assert (filterStep c (d, acc) n
            = (d, acc ++ (if decide (depth n < d) then [n] else []))) as ->.
    { unfold filterStep. rewrite (proj2 (Z.eqb_neq _ _)) by done.
      rewrite bool_decide_eq_false_2 by done.
      case_decide.
      - by rewrite (proj2 (Z.ltb_ge _ _)) by lia.
      - rewrite (proj2 (Z.ltb_lt _ _)) by lia. by rewrite app_nil_r. }
    rewrite IH by done. rewrite filter_cons.
    case_decide; by rewrite <- app_assoc.
Qed.

(** X14.  The visible list is a sublist of the node list: the filter
    drops nodes, and never adds, repeats or reorders one. *)
Theorem filteredFileList_sublist fileList (collapsedFolders : gset string) :
  sublist (filteredFileList fileList collapsedFolders) fileList.
Proof. unfold filteredFileList. apply foldl_filterStep_sublist. Qed.

(** X15.  What follows a collapsed folder: let the nodes before the
    folder be uncollapsed and the folder be collapsed, at depth [d]; as
    long as the nodes after it are not at depth [d] and not collapsed,
    exactly those above depth [d] are shown.  So the nodes below the
    folder are hidden, and a deeper node stays hidden even when nodes
    above the folder's depth have come in between. *)
Theorem filteredFileList_after_collapsed (collapsedFolders : gset string) pre f mid :
  Forall (λ n, (fullPath n ∉ collapsedFolders) ∧ depth n <= MAX_SAFE_INTEGER) pre →
  fullPath f ∈ collapsedFolders →
  depth f <= MAX_SAFE_INTEGER →
  Forall (λ n, depth n ≠ depth f ∧ fullPath n ∉ collapsedFolders) mid →
  filteredFileList (pre ++ f :: mid) collapsedFolders
  = pre ++ f :: filter (λ n, depth n < depth f) mid.
Proof.
  intros Hpre Hf Hd Hmid. unfold filteredFileList.
  rewrite foldl_app, (foldl_filterStep_uncollapsed _ pre []) by done.
  cbn [foldl]. rewrite filterStep_collapsed by done.
  rewrite foldl_filterStep_below by done. simpl. by rewrite <- app_assoc.
Qed.

(** X16.  A node at the depth of a collapsed folder ends the hidden
    group: when the folder is followed by deeper nodes and then by a node
    at its own depth, the deeper nodes are dropped and filtering goes on
    from that node as if from the start of a list. *)
Theorem filteredFileList_sibling_resets (collapsedFolders : gset string) pre f kids s rest :
  Forall (λ n, (fullPath n ∉ collapsedFolders) ∧ depth n <= MAX_SAFE_INTEGER) pre →
  fullPath f ∈ collapsedFolders →
  depth f <= MAX_SAFE_INTEGER →
  Forall (λ n, depth f < depth n) kids →
  depth s = depth f →
  filteredFileList (pre ++ f :: kids ++ s :: rest) collapsedFolders
  = pre ++ f :: filteredFileList (s :: rest) collapsedFolders.
Proof.
  intros Hpre Hf Hd Hkids Hs. unfold filteredFileList.
  rewrite foldl_app, (foldl_filterStep_uncollapsed _ pre []) by done.
  cbn [foldl app]. rewrite filterStep_collapsed by done.
  rewrite foldl_app.
  assert (∀ acc, foldl (filterStep collapsedFolders) (depth f, acc) kids = (depth f, acc))
    as ->.
  { clear -Hkids. induction kids as [|k kids IH]; intros acc; cbn [foldl]; [done|].
    apply Forall_cons in Hkids as [Hk Hkids].
    assert (filterStep collapsedFolders (depth f, acc) k = (depth f, acc)) as ->.
    { unfold filterStep. rewrite (proj2 (Z.eqb_neq _ _)) by lia.
      case_bool_decide; [rewrite Z.min_l by lia|]; by rewrite (proj2 (Z.ltb_lt _ _)). }
    by apply IH. }
  cbn [foldl].
  assert (filterStep collapsedFolders (depth f, pre ++ [f]) s
          = ((filterStep collapsedFolders (MAX_SAFE_INTEGER, []) s).1,
             (pre ++ [f]) ++ (filterStep collapsedFolders (MAX_SAFE_INTEGER, []) s).2))
    as ->.
  { unfold filterStep. rewrite Hs, Z.eqb_refl.
    assert ((if MAX_SAFE_INTEGER =? depth f then MAX_SAFE_INTEGER else MAX_SAFE_INTEGER)
            = MAX_SAFE_INTEGER) as -> by by destruct (MAX_SAFE_INTEGER =? depth f).
    match goal with |- context [?a <? depth f] => destruct (a <? depth f) end;
      simpl; [by rewrite app_nil_r|done]. }
  destruct (filterStep collapsedFolders (MAX_SAFE_INTEGER, []) s) as [d' l'] eqn:Hstep.
  cbn [fst snd]. rewrite (foldl_filterStep_acc _ rest d' ((pre ++ [f]) ++ l')).
  rewrite (foldl_filterStep_acc _ rest d' l'). simpl.
  by rewrite <- !app_assoc.
Qed.

Lemma filteredFileList_after_collapsed_witness :
  filteredFileList
    [Example.nodeC; Example.nodeAB; Example.nodeC; Example.nodeABy] {[ "A/B" ]}
  = [Example.nodeC; Example.nodeAB; Example.nodeC].
Proof.
  apply (filteredFileList_after_collapsed {[ "A/B" ]} [Example.nodeC] Example.nodeAB
           [Example.nodeC; Example.nodeABy]).
  - repeat constructor; vm_compute; discriminate.
  - vm_compute. reflexivity.
  - discriminate.
  - repeat constructor; vm_compute; discriminate.
Defined.

Lemma filteredFileList_sibling_resets_witness :
  filteredFileList Example.nodes {[ "A" ]}
  = Example.nodeA :: filteredFileList [Example.nodeC] {[ "A" ]}.
Proof.
  apply (filteredFileList_sibling_resets {[ "A" ]} [] Example.nodeA
           [Example.nodeAx; Example.nodeAB; Example.nodeABy] Example.nodeC []).
  - constructor.
  - vm_compute. reflexivity.
  - discriminate.
  - repeat constructor.
  - reflexivity.
Defined.

(** ** The node list for any root and any hidden patterns *)

Section WalkGeneral.

Variable rootFolder : string.
Variable hideRoot : bool.
Variable defaultDepth : Z.

Lemma numbered_cons (fileList new : list Node) n :
  id n = Z.of_nat (length fileList) →
  id <$> new = Z.of_nat <$> seq (length (fileList ++ [n])) (length new) →
  id <$> (n :: new) = Z.of_nat <$> seq (length fileList) (length (n :: new)).
Proof.
  intros Hn Hnew. rewrite length_app in Hnew. cbn [length] in Hnew.
  rewrite Nat.add_1_r in Hnew. cbn [length seq]. by rewrite !fmap_cons, Hn, Hnew.
Qed.

Lemma walkSegments_general dirent segmentsLength rest cur i depth seen fileList :
  ∃ seen' new,
    walkSegments rootFolder hideRoot defaultDepth dirent segmentsLength rest cur i depth
      (seen, fileList) = (seen', fileList ++ new)
    ∧ id <$> new = Z.of_nat <$> seq (length fileList) (length new)
    ∧ Forall (inScope rootFolder hideRoot) new.
Proof.
  revert cur i depth seen fileList.
  induction rest as [|name rest IH]; intros cur i depth seen fileList.
  - exists seen, []. simpl. by rewrite app_nil_r.
  - cbn [walkSegments]. set (fullPath := cur +:+ "/" +:+ name).
    destruct (negb (Str.startsWith fullPath rootFolder)
              || (hideRoot && String.eqb fullPath rootFolder)) eqn:Hskip.
    + apply IH.
    + apply orb_false_iff in Hskip as [Hstart Hroot]. apply negb_false_iff in Hstart.
      assert (∀ k d, inScope rootFolder hideRoot
                       (mkNode k (Z.of_nat (length fileList)) d name fullPath)) as Hscope.
      { intros k d. split; [done|]. simpl. intros ->. simpl in Hroot.
        by apply String.eqb_neq in Hroot. }
      destruct ((i =? segmentsLength - 1) && direntIsFile dirent).
      * destruct (IH fullPath (i + 1) (depth + 1) seen
                    (fileList ++ [mkNode file (Z.of_nat (length fileList))
                                    (depth + (if hideRoot then 0 else defaultDepth))
                                    name fullPath]))
          as (seen' & new & -> & Hids & Hnew).
        eexists seen', (_ :: new). split; [by rewrite <- app_assoc|].
        split; [by apply numbered_cons|]. by constructor.
      * case_bool_decide as Hseen; cbn [negb].
        { apply IH. }
        destruct (IH fullPath (i + 1) (depth + 1) ({[fullPath]} ∪ seen)
                    (fileList ++ [mkNode folder (Z.of_nat (length fileList))
                                    (depth + (if hideRoot then 0 else defaultDepth))
                                    name fullPath]))
          as (seen' & new & -> & Hids & Hnew).
        eexists seen', (_ :: new). split; [by rewrite <- app_assoc|].
        split; [by apply numbered_cons|]. by constructor.
Qed.

Lemma addEntry_general hiddenFiles h seen fileList entry :
  ∃ h' seen' new,
    addEntry rootFolder hideRoot hiddenFiles defaultDepth (h, (seen, fileList)) entry
    = (h', (seen', fileList ++ new))
    ∧ id <$> new = Z.of_nat <$> seq (length fileList) (length new)
    ∧ Forall (inScope rootFolder hideRoot) new.
Proof.
  destruct entry as [filePath dirent]. unfold addEntry.
  destruct (last _) as [fileName|].
  - destruct (isHiddenFile _ _ _ _) as [[] h'].
    + exists h', seen, []. simpl. by rewrite app_nil_r.
    + destruct (walkSegments_general dirent
                  (Z.of_nat (length
                     (filter (λ segment, negb (Str.isEmpty segment))
                        (Str.split (if Str.startsWith filePath "/" then filePath
                                    else "/" +:+ filePath)))))
                  (filter (λ segment, negb (Str.isEmpty segment))
                     (Str.split (if Str.startsWith filePath "/" then filePath
                                 else "/" +:+ filePath)))
                  "" 0 0 seen fileList) as (seen' & new & -> & Hnew).
      by exists h', seen', new.
  - exists h, seen, []. simpl. by rewrite app_nil_r.
Qed.

Lemma foldl_addEntry_general hiddenFiles entries h seen fileList :
  ∃ h' seen' new,
    foldl (addEntry rootFolder hideRoot hiddenFiles defaultDepth) (h, (seen, fileList)) entries
    = (h', (seen', fileList ++ new))
    ∧ id <$> new = Z.of_nat <$> seq (length fileList) (length new)
    ∧ Forall (inScope rootFolder hideRoot) new.
Proof.
  revert h seen fileList. induction entries as [|entry entries IH]; intros h seen fileList.
  - exists h, seen, []. simpl. by rewrite app_nil_r.
  - cbn [foldl].
    destruct (addEntry_general hiddenFiles h seen fileList entry)
      as (h1 & seen1 & new1 & -> & Hids1 & Hnew1).
    destruct (IH h1 seen1 (fileList ++ new1)) as (h' & seen' & new & -> & Hids & Hnew).
    exists h', seen', (new1 ++ new). split; [by rewrite app_assoc|]. split.
    + rewrite fmap_app, Hids1, Hids, !length_app, seq_app, fmap_app. done.
    + by apply Forall_app.
Qed.

(** The loop body in terms of the skip decision. *)
Lemma addEntry_skipEntry hiddenFiles h built entry :
  addEntry rootFolder hideRoot hiddenFiles defaultDepth (h, built) entry
  = ((skipEntry hiddenFiles entry h).2,
     if (skipEntry hiddenFiles entry h).1 then built
     else (addEntry rootFolder hideRoot [] defaultDepth (h, built) entry).2).
Proof.
  destruct entry as [filePath dirent]. unfold skipEntry, addEntry, segmentsOf.
  cbn [fst snd]. destruct (last _) as [fileName|]; [|done].
  cbn [isHiddenFile]. by destruct (isHiddenFile _ _ _ _) as [[] h'].
Qed.

Lemma addEntry_nil h h0 built entry :
  (addEntry rootFolder hideRoot [] defaultDepth (h, built) entry).2
  = (addEntry rootFolder hideRoot [] defaultDepth (h0, built) entry).2.
Proof.
  destruct entry as [filePath dirent]. unfold addEntry.
  by destruct (last _) as [fileName|].
Qed.

Lemma addEntry_nil_heap h built entry :
  (addEntry rootFolder hideRoot [] defaultDepth (h, built) entry).1 = h.
Proof.
  destruct entry as [filePath dirent]. unfold addEntry.
  by destruct (last _) as [fileName|].
Qed.

Lemma foldl_addEntry_shown hiddenFiles entries h h0 built :
  (foldl (addEntry rootFolder hideRoot hiddenFiles defaultDepth) (h, built) entries).2
  = (foldl (addEntry rootFolder hideRoot [] defaultDepth) (h0, built)
           (shownEntries hiddenFiles h entries)).2.
Proof.
  revert h built. induction entries as [|entry entries IH]; intros h built; [done|].
  cbn [foldl shownEntries]. rewrite addEntry_skipEntry.
  destruct (skipEntry hiddenFiles entry h) as [[] h1]; cbn [fst snd].
  - apply IH.
  - cbn [foldl]. rewrite IH. f_equal. f_equal.
    rewrite (surjective_pairing (addEntry _ _ [] _ (h0, built) entry)).
    by rewrite addEntry_nil_heap, (addEntry_nil h0 h).
Qed.

End WalkGeneral.

(** ** Patterns that keep no state *)

Lemma patternMatches_stateless filePath fileName pathOrRegex h :
  stateless pathOrRegex = true →
  patternMatches filePath fileName pathOrRegex h
  = ((patternMatches filePath fileName pathOrRegex ∅).1, h).
Proof.
  destruct pathOrRegex as [s|r]; [done|]. cbn [stateless patternMatches].
  intros Hflags%negb_true_iff. unfold RegExp_test. rewrite Hflags.
  by destruct (search r filePath 0).
Qed.

Lemma isHiddenFile_stateless filePath fileName hiddenFiles h :
  Forall (λ pathOrRegex, stateless pathOrRegex = true) hiddenFiles →
  isHiddenFile filePath fileName hiddenFiles h
  = ((isHiddenFile filePath fileName hiddenFiles ∅).1, h).
Proof.
  induction 1 as [|pathOrRegex rest Hp _ IH]; [done|]. cbn [isHiddenFile].
  rewrite (patternMatches_stateless _ _ _ h), (patternMatches_stateless _ _ _ ∅) by done.
  destruct (patternMatches filePath fileName pathOrRegex ∅).1; [done|].
  rewrite IH. by destruct (isHiddenFile filePath fileName rest ∅).
Qed.

Lemma skipEntry_stateless hiddenFiles entry h :
  Forall (λ pathOrRegex, stateless pathOrRegex = true) hiddenFiles →
  skipEntry hiddenFiles entry h = (entrySkipped hiddenFiles ∅ entry, h).
Proof.
  intros Hstateless. unfold entrySkipped, skipEntry.
  destruct (last _) as [fileName|]; [|done].
  by rewrite isHiddenFile_stateless.
Qed.

Lemma shownEntries_stateless hiddenFiles entries h :
  Forall (λ pathOrRegex, stateless pathOrRegex = true) hiddenFiles →
  shownEntries hiddenFiles h entries
  = filter (λ entry, negb (entrySkipped hiddenFiles h entry)) entries.
Proof.
  intros Hstateless. induction entries as [|entry entries IH]; [done|].
  assert (entrySkipped hiddenFiles h entry = entrySkipped hiddenFiles ∅ entry) as Heq.
  { unfold entrySkipped at 1. by rewrite skipEntry_stateless. }
  cbn [shownEntries]. rewrite filter_cons, Heq, (skipEntry_stateless _ entry h) by done.
  destruct (entrySkipped hiddenFiles ∅ entry); simpl; by rewrite IH.
Qed.

Lemma foldl_addEntry_stateless rootFolder hideRoot defaultDepth hiddenFiles entries h built :
  Forall (λ pathOrRegex, stateless pathOrRegex = true) hiddenFiles →
  (foldl (addEntry rootFolder hideRoot hiddenFiles defaultDepth) (h, built) entries).1 = h.
Proof.
  intros Hstateless. revert built.
  induction entries as [|entry entries IH]; intros built; [done|].
  cbn [foldl]. rewrite addEntry_skipEntry, skipEntry_stateless by done. apply IH.
Qed.

(** The three default patterns are literal texts without flags. *)
Lemma endOfFirst_includes i s text :
  match Str.endOfFirst i s text with Some _ => true | None => false end
  = Str.includes s text.
Proof.
  revert i. induction s as [|c s IH]; intros i; simpl.
  - by destruct (Str.startsWith "" text).
  - destruct (Str.startsWith (String c s) text); [done|]. apply IH.
Qed.

Lemma patternMatches_literal o text filePath fileName h :
  patternMatches filePath fileName (HRegExp (literalRegExp o text)) h
  = (Str.includes filePath text || Str.includes fileName text, h).
Proof.
  unfold patternMatches, RegExp_test, literalRegExp. cbn [global sticky search orb].
  change (Z.to_nat 0) with 0%nat. cbn [Str.drop].
  rewrite !endOfFirst_includes. by destruct (Str.includes filePath text).
Qed.

Lemma isHiddenFile_default filePath fileName extra h :
  Str.includes filePath "/node_modules/" = true
  ∨ Str.includes filePath "/.next" = true
  ∨ Str.includes filePath "/.astro" = true →
  isHiddenFile filePath fileName (computedHiddenFiles extra) h = (true, h).
Proof.
  intros Hin. unfold computedHiddenFiles, DEFAULT_HIDDEN_FILES.
  cbn [app isHiddenFile]. rewrite !patternMatches_literal.
  destruct (Str.includes filePath "/node_modules/" || Str.includes fileName "/node_modules/")
    eqn:H1; [done|].
  destruct (Str.includes filePath "/.next" || Str.includes fileName "/.next")
    eqn:H2; [done|].
  destruct (Str.includes filePath "/.astro" || Str.includes fileName "/.astro")
    eqn:H3; [done|].
  apply orb_false_iff in H1 as [H1 _], H2 as [H2 _], H3 as [H3 _].
  destruct Hin as [Hin | [Hin | Hin]]; congruence.
Qed.

Lemma unsortedFileList_general rootFolder hideRoot entries hiddenFiles h :
  id <$> (unsortedFileList rootFolder hideRoot entries hiddenFiles h).1
  = Z.of_nat <$> seq 0 (length (unsortedFileList rootFolder hideRoot entries hiddenFiles h).1)
  ∧ Forall (inScope rootFolder hideRoot)
           (unsortedFileList rootFolder hideRoot entries hiddenFiles h).1.
Proof.
  unfold unsortedFileList.
  destruct (String.eqb rootFolder "/" && negb hideRoot) eqn:Hroot.
  - apply andb_true_iff in Hroot as [Hr Hh]. apply String.eqb_eq in Hr.
    apply negb_true_iff in Hh. subst.
    destruct (foldl_addEntry_general "/" false 1 hiddenFiles entries h ∅
                [mkNode folder 0 0 "/" "/"]) as (h' & seen' & new & -> & Hids & Hnew).
    cbn [fst snd]. split.
    + apply (numbered_cons [] new (mkNode folder 0 0 "/" "/")); [done|exact Hids].
    + constructor; [|done]. by split.
  - destruct (foldl_addEntry_general rootFolder hideRoot 0 hiddenFiles entries h ∅ [])
      as (h' & seen' & new & -> & Hids & Hnew).
    by simpl in *.
Qed.

Lemma unsortedFileList_shown rootFolder hideRoot entries hiddenFiles h :
  (unsortedFileList rootFolder hideRoot entries hiddenFiles h).1
  = (unsortedFileList rootFolder hideRoot (shownEntries hiddenFiles h entries) [] h).1.
Proof.
  unfold unsortedFileList.
  destruct (String.eqb rootFolder "/" && negb hideRoot); cbn [fst];
    by rewrite (foldl_addEntry_shown _ _ _ hiddenFiles entries h h).
Qed.

Lemma unsortedFileList_stateless rootFolder hideRoot entries hiddenFiles h :
  Forall (λ pathOrRegex, stateless pathOrRegex = true) hiddenFiles →
  (unsortedFileList rootFolder hideRoot entries hiddenFiles h).2 = h.
Proof.
  intros Hstateless. unfold unsortedFileList.
  destruct (String.eqb rootFolder "/" && negb hideRoot); cbn [snd];
    by apply foldl_addEntry_stateless.
Qed.

(** X17.  The ids of the nodes are their positions in the order of
    emission: the built list carries each of the numbers 0 to its length
    less one exactly once, for every root, every hidden pattern in every
    state of its [lastIndex], and either way of the root being hidden. *)
Theorem buildFileList_ids {collation : Collation} rootFolder hideRoot entries hiddenFiles
    (h : RegExpHeap) :
  (id <$> (buildFileList rootFolder hideRoot entries hiddenFiles h).1)
  ≡ₚ (Z.of_nat <$>
        seq 0 (length (buildFileList rootFolder hideRoot entries hiddenFiles h).1))
  ∧ NoDup (id <$> (buildFileList rootFolder hideRoot entries hiddenFiles h).1).
Proof.
  destruct (unsortedFileList_general rootFolder hideRoot entries hiddenFiles h) as [Hids _].
  assert ((buildFileList rootFolder hideRoot entries hiddenFiles h).1
          ≡ₚ (unsortedFileList rootFolder hideRoot entries hiddenFiles h).1) as Hperm
    by apply sortNodes_Permutation.
  rewrite Hperm, Hids. split; [done|].
  apply NoDup_fmap_2; [apply Nat2Z.inj'|apply NoDup_seq].
Qed.

(** X18.  Every node of the built list lies within the root: its path
    starts with [rootFolder], and is not [rootFolder] itself when the
    root is hidden. *)
Theorem buildFileList_in_scope {collation : Collation} rootFolder hideRoot entries
    hiddenFiles (h : RegExpHeap) :
  Forall (λ n, Str.startsWith (fullPath n) rootFolder = true
               ∧ (hideRoot = true → fullPath n ≠ rootFolder))
         (buildFileList rootFolder hideRoot entries hiddenFiles h).1.
Proof.
  destruct (unsortedFileList_general rootFolder hideRoot entries hiddenFiles h)
    as [_ Hscope].
  eapply Permutation_Forall; [symmetry; apply sortNodes_Permutation|].
  exact Hscope.
Qed.

(** X19.  Skipped entries leave no trace in the list: it is the list
    built, without patterns, from the entries that the loop does not
    pass over.  Which entries those are can depend on the order of the
    entries and on the calls made before, since a RegExp with the [g] or
    the [y] flag keeps the end of its last match in [lastIndex]; when no
    pattern has such a flag, whether an entry is passed over depends on
    the entry alone, the call changes no [lastIndex], and the list is
    the one built from the entries that are not passed over.  With the
    patterns of the component, the defaults first, an entry whose
    normalized path holds [/node_modules/], [/.next] or [/.astro] is
    skipped whatever further patterns the prop adds and whatever their
    state, and no [lastIndex] changes.  With [/\/secret/g] as the one
    pattern and the files [/ok], [/secret-a], [/secret-b], the second
    file is passed over and the third, which is passed over when it
    comes first, is listed. *)
Theorem buildFileList_skips_hidden {collation : Collation} rootFolder hideRoot entries
    hiddenFiles (h : RegExpHeap) :
  (buildFileList rootFolder hideRoot entries hiddenFiles h).1
  = (buildFileList rootFolder hideRoot (shownEntries hiddenFiles h entries) [] h).1
  ∧ (Forall (λ pathOrRegex, stateless pathOrRegex = true) hiddenFiles →
       (∀ h' entry, skipEntry hiddenFiles entry h' = (entrySkipped hiddenFiles h entry, h'))
       ∧ buildFileList rootFolder hideRoot entries hiddenFiles h
         = buildFileList rootFolder hideRoot
             (filter (λ entry, negb (entrySkipped hiddenFiles h entry)) entries)
             hiddenFiles h
       ∧ (buildFileList rootFolder hideRoot entries hiddenFiles h).2 = h)
  ∧ (∀ (entry : string * option Dirent) extra h',
       let normalizedPath :=
         if Str.startsWith entry.1 "/" then entry.1 else "/" +:+ entry.1 in
       Str.includes normalizedPath "/node_modules/" = true
       ∨ Str.includes normalizedPath "/.next" = true
       ∨ Str.includes normalizedPath "/.astro" = true →
       skipEntry (computedHiddenFiles extra) entry h' = (true, h'))
  ∧ (entrySkipped [HRegExp Example.secret] ∅ ("/secret-b", Some (fileDirent "3" false)) = true
     ∧ fullPath <$> filter (λ n, kind n = file)
                      (buildFileList "/" hideRoot Example.secrets [HRegExp Example.secret] ∅).1
       ≡ₚ ["/ok"; "/secret-b"]).
Proof.
  split_and!.
  - unfold buildFileList. cbn [fst]. by rewrite unsortedFileList_shown.
  - intros Hstateless.
    assert (∀ h' entry,
              skipEntry hiddenFiles entry h' = (entrySkipped hiddenFiles h entry, h'))
      as Hskip.
    { intros h' entry. unfold entrySkipped.
      by rewrite (skipEntry_stateless _ _ h), (skipEntry_stateless _ _ h'). }
    split; [exact Hskip|].
    assert ((buildFileList rootFolder hideRoot entries hiddenFiles h).2 = h) as Hheap.
    { unfold buildFileList. cbn [snd]. by apply unsortedFileList_stateless. }
    split; [|exact Hheap].
    rewrite (surjective_pairing (buildFileList rootFolder hideRoot entries hiddenFiles h)).
    rewrite (surjective_pairing (buildFileList rootFolder hideRoot (filter _ entries) _ h)).
    f_equal.
    + unfold buildFileList. cbn [fst]. f_equal.
      rewrite (unsortedFileList_shown _ _ entries hiddenFiles h),
        (unsortedFileList_shown _ _ (filter _ entries) hiddenFiles h).
      f_equal. f_equal.
      rewrite !shownEntries_stateless by done.
      rewrite list_filter_filter. apply list_filter_iff. intros entry. tauto.
    + rewrite Hheap. unfold buildFileList. cbn [snd].
      symmetry. by apply unsortedFileList_stateless.
  - intros entry extra h' normalizedPath Hin. unfold skipEntry. fold normalizedPath.
    destruct (last _) as [fileName|]; [|done].
    by apply isHiddenFile_default.
  - by vm_compute.
  - etransitivity.
    { apply fmap_Permutation.
      apply (filter_Permutation (λ n, kind n = file)). apply sortNodes_Permutation. }
    by destruct hideRoot.
Qed.

(** Without a stateful pattern: the defaults hide what they match,
    with or without patterns of the prop, and a call with the defaults
    alone leaves every [lastIndex] as it is.  With [/\/secret/g]: of
    the three files the loop passes over the second only. *)
Lemma buildFileList_skips_hidden_witness :
  skipEntry (computedHiddenFiles None) ("/node_modules/pkg", Some folderDirent) ∅ = (true, ∅)
  ∧ skipEntry (computedHiddenFiles (Some [HRegExp Example.secret]))
      ("web/.next/cache", Some folderDirent) {[ 3%N := 5 ]} = (true, {[ 3%N := 5 ]})
  ∧ (@buildFileList Example.collation "/" false
       (("/node_modules/pkg", Some folderDirent) :: Example.tree)
       (computedHiddenFiles None) ∅)
    = (@buildFileList Example.collation "/" false Example.tree (computedHiddenFiles None) ∅)
  ∧ (@buildFileList Example.collation "/" false Example.secrets
       [HRegExp Example.secret] ∅).1
    = (@buildFileList Example.collation "/" false
         [("/ok", Some (fileDirent "1" false)); ("/secret-b", Some (fileDirent "3" false))]
         [] ∅).1.
Proof.
  destruct (@buildFileList_skips_hidden Example.collation "/" false
              (("/node_modules/pkg", Some folderDirent) :: Example.tree)
              (computedHiddenFiles None) ∅) as (_ & Hstateless & Hskip & _).
  destruct Hstateless as (_ & Hsame & _).
  { repeat constructor. }
  split; [|split; [|split]].
  - apply (Hskip ("/node_modules/pkg", Some folderDirent) None ∅). left. reflexivity.
  - apply (Hskip ("web/.next/cache", Some folderDirent) (Some [HRegExp Example.secret])).
    right. left. reflexivity.
  - exact Hsame.
  - destruct (@buildFileList_skips_hidden Example.collation "/" false Example.secrets
                [HRegExp Example.secret] ∅) as (Hshown & _).
    exact Hshown.
Defined.

Lemma buildFileList_in_scope_witness :
  Forall (λ n, fullPath n ≠ "/home/project")
         (@buildFileList Example.collation "/home/project" true
            [("/home/project", Some folderDirent);
             ("/home/project/src/a.ts", Some (fileDirent "hi" false));
             ("/etc/passwd", Some (fileDirent "x" false))] [] ∅).1.
Proof.
  eapply Forall_impl.
  - apply (@buildFileList_in_scope Example.collation "/home/project" true).
  - intros n [_ Hroot]. apply Hroot. reflexivity.
Defined.

(** ** Rows and their depth *)

Lemma slashFree_app a b : slashFree (a +:+ b) = slashFree a && slashFree b.
Proof.
  induction a as [|c a IH]; [done|].
  change (String c a +:+ b) with (String c (a +:+ b)). simpl.
  rewrite IH. by rewrite andb_assoc.
Qed.

Lemma splitFrom_slashFree_segments s cur :
  slashFree cur = true → Forall (λ segment, slashFree segment = true) (Str.splitFrom cur s).
Proof.
  revert cur. induction s as [|c s IH]; intros cur Hcur; cbn [Str.splitFrom].
  - by repeat constructor.
  - destruct (Str.isSlash c) eqn:Hc.
    + constructor; [done|]. by apply IH.
    + apply IH. rewrite slashFree_app, Hcur. simpl. by rewrite Hc.
Qed.

Lemma splitFrom_app_slash a b cur :
  Str.splitFrom cur (a +:+ String "/" b) = Str.splitFrom cur a ++ Str.splitFrom "" b.
Proof.
  revert cur. induction a as [|c a IH]; intros cur.
  - done.
  - change (String c a +:+ String "/" b) with (String c (a +:+ String "/" b)).
    cbn [Str.splitFrom]. destruct (Str.isSlash c); [|apply IH].
    by rewrite IH.
Qed.

Lemma append_empty_r s : s +:+ "" = s.
Proof.
  induction s as [|c s IH]; [done|].
  change (String c s +:+ "") with (String c (s +:+ "")). by rewrite IH.
Qed.

Lemma append_snoc cur c s : (cur +:+ String c "") +:+ s = cur +:+ String c s.
Proof.
  induction cur as [|x cur IH]; [done|].
  change ((String x cur +:+ String c "") +:+ s)
    with (String x ((cur +:+ String c "") +:+ s)).
  by rewrite IH.
Qed.

Lemma splitFrom_slashFree s cur :
  slashFree s = true → Str.splitFrom cur s = [cur +:+ s].
Proof.
  revert cur. induction s as [|c s IH]; intros cur Hs; cbn [Str.splitFrom].
  - by rewrite append_empty_r.
  - simpl in Hs. apply andb_true_iff in Hs as [Hc Hs]. apply negb_true_iff in Hc.
    by rewrite Hc, IH, append_snoc by done.
Qed.

Lemma split_append_segment cur name :
  slashFree name = true →
  length (Str.split (cur +:+ "/" +:+ name)) = S (length (Str.split cur)).
Proof.
  intros Hname. unfold Str.split.
  change ("/" +:+ name) with (String "/" name).
  rewrite splitFrom_app_slash, (splitFrom_slashFree name "") by done.
  rewrite length_app. simpl. lia.
Qed.

Lemma segmentsOf_segments filePath :
  Forall (λ segment, segment ≠ "" ∧ slashFree segment = true) (segmentsOf filePath).
Proof.
  unfold segmentsOf. apply Forall_forall. intros segment Hin.
  apply list_elem_of_filter in Hin as [Hne Hin]. split; [by apply segment_not_empty|].
  pose proof (splitFrom_slashFree_segments
                (if Str.startsWith filePath "/" then filePath else "/" +:+ filePath)
                "" eq_refl) as Hall.
  rewrite Forall_forall in Hall. by apply Hall.
Qed.

Section RowFacts.

Variable hideRoot : bool.
Variable defaultDepth : Z.

Lemma walkSegments_laidOut dirent segmentsLength rest cur i seen fileList :
  walked cur →
  Forall (λ segment, segment ≠ "" ∧ slashFree segment = true) rest →
  Z.of_nat (length (Str.split cur)) = i + 1 →
  ∃ seen' new,
    walkSegments "/" hideRoot defaultDepth dirent segmentsLength rest cur i i
      (seen, fileList) = (seen', fileList ++ new)
    ∧ Forall (laidOut (if hideRoot then 0 else defaultDepth)) new.
Proof.
  revert cur i seen fileList.
  induction rest as [|name rest IH]; intros cur i seen fileList Hcur Hrest Hi.
  - exists seen, []. simpl. by rewrite app_nil_r.
  - apply Forall_cons in Hrest as [[Hname Hfree] Hrest].
    cbn [walkSegments]. rewrite (walked_not_skipped cur name hideRoot Hcur Hname).
    set (fullPath := cur +:+ "/" +:+ name).
    assert (Z.of_nat (length (Str.split fullPath)) = (i + 1) + 1) as Hnext.
    { unfold fullPath. rewrite split_append_segment by done. lia. }
    assert (∀ k j, laidOut (if hideRoot then 0 else defaultDepth)
                     (mkNode k j (i + (if hideRoot then 0 else defaultDepth)) name fullPath))
      as Hlaid.
    { intros k j. unfold laidOut. simpl.
      split_and!; try done; [by exists cur|]. unfold fileDepth. lia. }
    assert (walked fullPath) as Hfull by by apply walked_append.
    destruct ((i =? segmentsLength - 1) && direntIsFile dirent).
    + destruct (IH fullPath (i + 1) seen
                  (fileList ++ [mkNode file (Z.of_nat (length fileList))
                                  (i + (if hideRoot then 0 else defaultDepth))
                                  name fullPath]))
        as (seen' & new & -> & Hnew); [done..|].
      eexists seen', (_ :: new). split; [by rewrite <- app_assoc|]. by constructor.
    + case_bool_decide as Hseen; cbn [negb].
      { by apply IH. }
      destruct (IH fullPath (i + 1) ({[fullPath]} ∪ seen)
                  (fileList ++ [mkNode folder (Z.of_nat (length fileList))
                                  (i + (if hideRoot then 0 else defaultDepth))
                                  name fullPath]))
        as (seen' & new & -> & Hnew); [done..|].
      eexists seen', (_ :: new). split; [by rewrite <- app_assoc|]. by constructor.
Qed.

Lemma foldl_addEntry_laidOut hiddenFiles entries h seen fileList :
  ∃ h' seen' new,
    foldl (addEntry "/" hideRoot hiddenFiles defaultDepth) (h, (seen, fileList)) entries
    = (h', (seen', fileList ++ new))
    ∧ Forall (laidOut (if hideRoot then 0 else defaultDepth)) new.
Proof.
  revert h seen fileList. induction entries as [|entry entries IH]; intros h seen fileList.
  - exists h, seen, []. simpl. by rewrite app_nil_r.
  - cbn [foldl].
    assert (∃ h1 seen1 new1,
              addEntry "/" hideRoot hiddenFiles defaultDepth (h, (seen, fileList)) entry
              = (h1, (seen1, fileList ++ new1))
              ∧ Forall (laidOut (if hideRoot then 0 else defaultDepth)) new1)
      as (h1 & seen1 & new1 & -> & Hnew1).
    { destruct entry as [filePath dirent]. unfold addEntry. fold (segmentsOf filePath).
      destruct (last (segmentsOf filePath)) as [fileName|].
      - destruct (isHiddenFile _ _ _ _) as [[] h1].
        + exists h1, seen, []. simpl. by rewrite app_nil_r.
        + destruct (walkSegments_laidOut dirent (Z.of_nat (length (segmentsOf filePath)))
                      (segmentsOf filePath) "" 0 seen fileList)
            as (seen1 & new1 & -> & Hnew1);
            [by left|apply segmentsOf_segments|done|].
          by exists h1, seen1, new1.
      - exists h, seen, []. simpl. by rewrite app_nil_r. }
    destruct (IH h1 seen1 (fileList ++ new1)) as (h' & seen' & new & -> & Hnew).
    exists h', seen', (new1 ++ new). split; [by rewrite app_assoc|]. by apply Forall_app.
Qed.

End RowFacts.

(** X20.  Rows under the root [/]: every node but the synthetic root
    has a name that is one non-empty segment, and a path that ends with a
    slash and that name.  The depth that [File] computes from the path of
    a node is the depth recorded in the node when the root is shown, and
    one more when the root is hidden; so with a hidden root a file row is
    padded one step (8 pixels) further than its node depth asks for. *)
Theorem buildFileList_rows {collation : Collation} (hideRoot : bool) entries hiddenFiles
    (h : RegExpHeap) :
  Forall (λ n,
            n = mkNode folder 0 0 "/" "/"
            ∨ (name n ≠ ""
               ∧ slashFree (name n) = true
               ∧ (∃ parent, fullPath n = parent +:+ "/" +:+ name n)
               ∧ fileDepth (fullPath n) = depth n + (if hideRoot then 1 else 0)
               ∧ paddingLeft (fileDepth (fullPath n))
                 = paddingLeft (depth n) + (if hideRoot then NODE_PADDING_LEFT else 0)))
         (buildFileList "/" hideRoot entries hiddenFiles h).1.
Proof.
  eapply Permutation_Forall; [symmetry; apply sortNodes_Permutation|].
  unfold unsortedFileList. destruct hideRoot; simpl.
  - destruct (foldl_addEntry_laidOut true 0 hiddenFiles entries h ∅ [])
      as (h' & seen' & new & -> & Hnew).
    simpl. eapply Forall_impl; [exact Hnew|].
    intros n (Hname & Hfree & Hpath & Hdepth). right. simpl in Hdepth.
    split_and!; try done; [lia|]. unfold paddingLeft, NODE_PADDING_LEFT. lia.
  - destruct (foldl_addEntry_laidOut false 1 hiddenFiles entries h ∅
                [mkNode folder 0 0 "/" "/"]) as (h' & seen' & new & -> & Hnew).
    simpl. constructor; [by left|]. eapply Forall_impl; [exact Hnew|].
    intros n (Hname & Hfree & Hpath & Hdepth). right. simpl in Hdepth.
    split_and!; try done; [lia|]. unfold paddingLeft, NODE_PADDING_LEFT. lia.
Qed.

(** ** Filtering twice *)

Lemma filterStep_kept_or_dropped (c : gset string) d acc n :
  d <= MAX_SAFE_INTEGER →
  (filterStep c (d, acc) n = (d, acc))
  ∨ (∃ d', d' <= MAX_SAFE_INTEGER ∧ ∀ acc', filterStep c (d, acc') n = (d', acc' ++ [n])).
Proof.
  intros Hd. unfold filterStep.
  set (d1 := if d =? depth n then MAX_SAFE_INTEGER else d).
  set (d2 := if bool_decide (fullPath n ∈ c) then d1 `min` depth n else d1).
  assert (d1 <= MAX_SAFE_INTEGER) as Hd1 by (unfold d1; destruct (d =? depth n); lia).
  assert (d2 <= MAX_SAFE_INTEGER) as Hd2 by (unfold d2; case_bool_decide; lia).
  destruct (d2 <? depth n) eqn:Hlt; [|right; by exists d2].
  left. f_equal. apply Z.ltb_lt in Hlt. unfold d2, d1 in *.
  destruct (d =? depth n) eqn:Heq; [apply Z.eqb_eq in Heq|]; case_bool_decide; lia.
Qed.

Lemma foldl_filterStep_again (c : gset string) l d acc acc' :
  d <= MAX_SAFE_INTEGER →
  foldl (filterStep c) (d, acc') (foldl (filterStep c) (d, []) l).2
  = ((foldl (filterStep c) (d, acc) l).1, acc' ++ (foldl (filterStep c) (d, []) l).2).
Proof.
  revert d acc acc'. induction l as [|n l IH]; intros d acc acc' Hd; cbn [foldl].
  - simpl. by rewrite app_nil_r.
  - destruct (filterStep_kept_or_dropped c d acc n Hd) as [Hdrop | (d' & Hd' & Hkeep)].
    + assert (filterStep c (d, []) n = (d, [])) as ->.
      { destruct (filterStep_kept_or_dropped c d [] n Hd) as [H | (d' & _ & H)]; [done|].
        rewrite (H acc) in Hdrop. injection Hdrop as _ Habs.
        apply (f_equal length) in Habs. rewrite length_app in Habs. simpl in Habs. lia. }
      rewrite Hdrop. by apply IH.
    + rewrite !Hkeep. cbn [app].
      rewrite (foldl_filterStep_acc c l d' [n]). cbn [snd app foldl].
      rewrite Hkeep. rewrite (foldl_filterStep_acc c l d' (acc ++ [n])). cbn [fst].
      rewrite (foldl_filterStep_acc c _ d' (acc' ++ [n])).
      rewrite (IH d' [] [] Hd'). cbn [fst snd app]. by rewrite <- app_assoc.
Qed.

(** X21.  Filtering is idempotent: the visible list, filtered again with
    the same collapsed set, is the visible list. *)
Theorem filteredFileList_idempotent fileList (collapsedFolders : gset string) :
  filteredFileList (filteredFileList fileList collapsedFolders) collapsedFolders
  = filteredFileList fileList collapsedFolders.
Proof.
  unfold filteredFileList.
  by rewrite (foldl_filterStep_again _ fileList MAX_SAFE_INTEGER [] []).
Qed.
